(** * Auction and draft engine of the league backend

    A shallow embedding of [src/routes/auction.js] and [src/routes/draft.js]
    (with the tables of [src/database.js] they read and write), and the
    properties of the bid queue, the auto-bid evaluator, the phase
    controller, the bidding-authority resolver and the snake-draft turn
    calculator that are stated about them.

    Conventions of the embedding:
    - JavaScript numbers that hold identifiers, amounts and millisecond
      timestamps are integers ([Z]); [NULL] / [undefined] is [None].
    - The SQLite tables are finite maps keyed by their primary key
      ([teams], [users], [players]) or lists of rows in insertion order
      ([team_roster], [auction_log], [draft_log]); the single row of
      [auction_state] is a record.
    - The module-level [let] variables of auction.js are the fields of
      [Engine]; the timers armed with [setTimeout] and the events sent
      with [io.emit] are fields of [Runtime].
    - One turn of the Node event loop (a request handler, or a timer
      callback, together with the promise continuations it schedules) is
      one atomic [step]; [Date.now()] is read from [clock] and is constant
      during a turn. *)

From Stdlib Require Import ZArith Lia Bool.
From stdpp Require Import base option list gmap strings.

Local Open Scope Z_scope.

(** ** JavaScript helpers *)

(** Truthiness of a numeric or NULL value: [!x] holds for [null],
    [undefined] and [0]. *)
Definition truthy (o : option Z) : bool :=
  match o with
  | Some v => negb (v =? 0)
  | None => false
  end.

(** [x || d] on numeric values. *)
Definition js_or (o : option Z) (d : Z) : Z :=
  if truthy o then default d o else d.

(** [a % b] on integers: the sign follows the dividend; [NaN] when [b = 0]. *)
Definition js_mod (a b : Z) : option Z :=
  if b =? 0 then None else Some (Z.rem a b).

(** [arr[i]] for an index that was computed as a number. *)
Definition js_index {A} (l : list A) (i : Z) : option A :=
  if i <? 0 then None else l !! Z.to_nat i.

(** [Array.prototype.sort] is stable: elements the comparator does not
    order keep their relative position. [precedes y x] says that [y] must
    come strictly before [x]. *)
Fixpoint insert_by {A} (precedes : A → A → bool) (x : A) (l : list A) : list A :=
  match l with
  | [] => [x]
  | y :: l' => if precedes y x then y :: insert_by precedes x l' else x :: y :: l'
  end.

Definition stable_sort {A} (precedes : A → A → bool) (l : list A) : list A :=
  foldr (insert_by precedes) [] l.

(** ** Tables of database.js *)

Inductive Mode := ModeIdle | ModeAuction | ModeDraft.

Definition is_auction (m : Mode) : bool :=
  match m with ModeAuction => true | _ => false end.

Definition is_draft (m : Mode) : bool :=
  match m with ModeDraft => true | _ => false end.

Record AuctionState := mkAuctionState {
  mode : Mode;
  current_player_id : option Z;
  current_bid : Z;
  current_bidder_team_id : option Z;
  timer_end : option Z;
  draft_round : Z;
  draft_pick : Z;
  draft_order : option (list Z);
  season : Z
}.

Record Team := mkTeam {
  team_name : string;
  owner_id : option Z;
  captain_id : option Z;
  budget_remaining : Z;
  bidding_authority_user_id : option Z
}.

Record User := mkUser {
  user_name : string
}.

Record Player := mkPlayer {
  player_user_id : option Z;
  base_price : Z;
  is_available : bool
}.

Inductive Acquisition := AcqCore | AcqDraft | AcqAuction.

Record RosterRow := mkRosterRow {
  r_team_id : Z;
  r_player_id : Z;
  r_acquisition_type : Acquisition;
  r_price : Z;
  r_season : Z
}.

Record AuctionLogRow := mkAuctionLogRow {
  l_player_id : Z;
  l_team_id : Z;
  l_bid_amount : Z;
  l_bid_increment : Z;
  l_is_auto_bid : bool;
  l_is_winning_bid : bool;
  l_season : Z
}.

Record DraftLogRow := mkDraftLogRow {
  d_round_number : Z;
  d_pick_number : Z;
  d_team_id : Z;
  d_player_id : Z;
  d_season : Z
}.

Record Db := mkDb {
  auction_state : AuctionState;
  teams : gmap Z Team;
  users : gmap Z User;
  players : gmap Z Player;
  team_roster : list RosterRow;
  auction_log : list AuctionLogRow;
  draft_log : list DraftLogRow
}.

(** ** Module state of auction.js *)

Record PendingBid := mkBid {
  teamId : Z;
  amount : Z;
  increment : Z;
  isAutoBid : bool
}.

Record AutoBid := mkAutoBid {
  maxBid : Z;
  ab_increment : Z;
  active : bool
}.

Record Engine := mkEngine {
  bidQueue : list PendingBid;
  isProcessingBids : bool;
  lastBidTime : Z;
  setupPhaseDuration : Z;
  (* keyed by team id; [Object.entries] lists integer keys in ascending
     order, which is the order of this list *)
  autoBidSettings : list (Z * AutoBid);
  currentPhase : string;
  phaseTimer : option nat
}.

Definition BID_INTERVAL_MS : Z := 3000.

(** ** Events sent to the spectators *)

Inductive IoEvent :=
| EvAuctionStarted (season : Z)
| EvAuctionPlayer (player_id baseBid setupEndTime : Z)
| EvBiddingStarted (timerEnd : Z)
| EvBid (playerId team amt incr : Z) (auto manual : bool) (timerEnd : Z) (queueLength : nat)
| EvBidQueued (team amt : Z) (queueLength : nat)
| EvSold (player_id team price : Z)
| EvUnsold (player_id : Z)
| EvAutoBidUpdated (team : Z) (settings : option AutoBid)
| EvAuthorityChanged (team : Z) (delegatedToUserId : option Z)
| EvPaused (previousPhase : string)
| EvResumed (phase : string) (timerEnd : Z)
| EvTimerExtended (timerEnd seconds : Z)
| EvConfigUpdated (seconds : Z)
| EvAuctionEnded
| EvDraftStarted (season : Z) (draftOrder : list Z)
| EvDraftPick (round pick team player_id nextRound nextPick : Z) (nextTeam : option Z)
| EvDraftTimer (timerEnd seconds : Z)
| EvDraftEnded.

(** ** Event-loop state *)

Record Runtime := mkRuntime {
  clock : Z;
  (* live [setTimeout] handles of the setup timer, with their due time *)
  phase_timers : list (nat * Z);
  next_handle : nat;
  (* due times of the drain loops suspended in [await setTimeout] *)
  drain_timers : list Z;
  (* [io.emit] calls, newest first, stamped with the clock *)
  emitted : list (Z * IoEvent)
}.

Record World := mkWorld {
  eng : Engine;
  db : Db;
  rt : Runtime
}.

(** Field updates. *)

Definition set_state (f : AuctionState → AuctionState) (w : World) : World :=
  let d := db w in
  mkWorld (eng w)
    (mkDb (f (auction_state d)) (teams d) (users d) (players d)
       (team_roster d) (auction_log d) (draft_log d))
    (rt w).

Definition set_teams (t : gmap Z Team) (w : World) : World :=
  let d := db w in
  mkWorld (eng w)
    (mkDb (auction_state d) t (users d) (players d)
       (team_roster d) (auction_log d) (draft_log d))
    (rt w).

Definition set_players (p : gmap Z Player) (w : World) : World :=
  let d := db w in
  mkWorld (eng w)
    (mkDb (auction_state d) (teams d) (users d) p
       (team_roster d) (auction_log d) (draft_log d))
    (rt w).

Definition set_team_roster (r : list RosterRow) (w : World) : World :=
  let d := db w in
  mkWorld (eng w)
    (mkDb (auction_state d) (teams d) (users d) (players d)
       r (auction_log d) (draft_log d))
    (rt w).

Definition set_auction_log (l : list AuctionLogRow) (w : World) : World :=
  let d := db w in
  mkWorld (eng w)
    (mkDb (auction_state d) (teams d) (users d) (players d)
       (team_roster d) l (draft_log d))
    (rt w).

Definition set_draft_log (l : list DraftLogRow) (w : World) : World :=
  let d := db w in
  mkWorld (eng w)
    (mkDb (auction_state d) (teams d) (users d) (players d)
       (team_roster d) (auction_log d) l)
    (rt w).

Definition set_bidQueue (q : list PendingBid) (w : World) : World :=
  let e := eng w in
  mkWorld
    (mkEngine q (isProcessingBids e) (lastBidTime e) (setupPhaseDuration e)
       (autoBidSettings e) (currentPhase e) (phaseTimer e))
    (db w) (rt w).

Definition set_isProcessingBids (b : bool) (w : World) : World :=
  let e := eng w in
  mkWorld
    (mkEngine (bidQueue e) b (lastBidTime e) (setupPhaseDuration e)
       (autoBidSettings e) (currentPhase e) (phaseTimer e))
    (db w) (rt w).

Definition set_lastBidTime (t : Z) (w : World) : World :=
  let e := eng w in
  mkWorld
    (mkEngine (bidQueue e) (isProcessingBids e) t (setupPhaseDuration e)
       (autoBidSettings e) (currentPhase e) (phaseTimer e))
    (db w) (rt w).

Definition set_setupPhaseDuration (t : Z) (w : World) : World :=
  let e := eng w in
  mkWorld
    (mkEngine (bidQueue e) (isProcessingBids e) (lastBidTime e) t
       (autoBidSettings e) (currentPhase e) (phaseTimer e))
    (db w) (rt w).

Definition set_autoBidSettings (a : list (Z * AutoBid)) (w : World) : World :=
  let e := eng w in
  mkWorld
    (mkEngine (bidQueue e) (isProcessingBids e) (lastBidTime e)
       (setupPhaseDuration e) a (currentPhase e) (phaseTimer e))
    (db w) (rt w).

Definition set_currentPhase (p : string) (w : World) : World :=
  let e := eng w in
  mkWorld
    (mkEngine (bidQueue e) (isProcessingBids e) (lastBidTime e)
       (setupPhaseDuration e) (autoBidSettings e) p (phaseTimer e))
    (db w) (rt w).

Definition set_phaseTimer (h : option nat) (w : World) : World :=
  let e := eng w in
  mkWorld
    (mkEngine (bidQueue e) (isProcessingBids e) (lastBidTime e)
       (setupPhaseDuration e) (autoBidSettings e) (currentPhase e) h)
    (db w) (rt w).

Definition set_clock (t : Z) (w : World) : World :=
  let r := rt w in
  mkWorld (eng w) (db w)
    (mkRuntime t (phase_timers r) (next_handle r) (drain_timers r) (emitted r)).

Definition set_phase_timers (l : list (nat * Z)) (n : nat) (w : World) : World :=
  let r := rt w in
  mkWorld (eng w) (db w)
    (mkRuntime (clock r) l n (drain_timers r) (emitted r)).

Definition set_drain_timers (l : list Z) (w : World) : World :=
  let r := rt w in
  mkWorld (eng w) (db w)
    (mkRuntime (clock r) (phase_timers r) (next_handle r) l (emitted r)).

(** [Date.now()] *)
Definition now (w : World) : Z := clock (rt w).

(** [io.emit(event, payload)] *)
Definition emit (e : IoEvent) (w : World) : World :=
  let r := rt w in
  mkWorld (eng w) (db w)
    (mkRuntime (clock r) (phase_timers r) (next_handle r) (drain_timers r)
       ((clock r, e) :: emitted r)).

(** [SELECT * FROM auction_state WHERE id = 1] *)
Definition state (w : World) : AuctionState := auction_state (db w).

(** [SELECT * FROM teams WHERE id = ?] *)
Definition get_team (w : World) (id : Z) : option Team := teams (db w) !! id.

(** ** The bid queue and the pacer (auction.js, lines 22-136) *)

Inductive ExecResult :=
| ExecOk
| ExecFail (error : string).

(** [executeBid(bid, io)] *)
Definition executeBid (bid : PendingBid) (w : World) : ExecResult * World :=
  let st := state w in
  if negb (is_auction (mode st)) || negb (truthy (current_player_id st)) then
    (ExecFail "Auction not active", w)
  else if amount bid <=? current_bid st then
    (ExecFail "Bid too low", w)
  else
    match get_team w (teamId bid) with
    | None => (ExecFail "Invalid team or insufficient budget", w)
    | Some team =>
      if budget_remaining team <? amount bid then
        (ExecFail "Invalid team or insufficient budget", w)
      else
        let newTimerEnd := now w + 10 * 1000 in
        let pid := default 0 (current_player_id st) in
        let w1 :=
          set_state (fun s =>
            mkAuctionState (mode s) (current_player_id s) (amount bid)
              (Some (teamId bid)) (Some newTimerEnd)
              (draft_round s) (draft_pick s) (draft_order s) (season s)) w in
        let w2 :=
          set_auction_log
            (auction_log (db w1) ++
               [mkAuctionLogRow pid (teamId bid) (amount bid) (increment bid)
                  (isAutoBid bid) false (season st)]) w1 in
        let w3 :=
          emit (EvBid pid (teamId bid) (amount bid) (increment bid)
                  (isAutoBid bid) false newTimerEnd
                  (length (bidQueue (eng w2)))) w2 in
        (ExecOk, w3)
    end.

(** The body of the [for] loop of [checkAutoBids]: the entries it pushes,
    in the order of [Object.entries(autoBidSettings)]. *)
Definition autoBidEntry (w : World) (excludeTeamId : Z)
    (entry : Z * AutoBid) : list PendingBid :=
  let '(team_id, settings) := entry in
  if (team_id =? excludeTeamId) || negb (active settings) then []
  else
    match get_team w team_id with
    | None => []
    | Some team =>
      let nextBid := current_bid (state w) + ab_increment settings in
      if (nextBid <=? maxBid settings) && (nextBid <=? budget_remaining team)
      then [mkBid team_id nextBid (ab_increment settings) true]
      else []
    end.

Definition autoBidScan (w : World) (excludeTeamId : Z) : list PendingBid :=
  concat (map (autoBidEntry w excludeTeamId) (autoBidSettings (eng w))).

(** [processBidQueue(io)], given the body of its [while] loop. *)
Definition processBidQueue_with (loop : World → World) (w : World) : World :=
  if isProcessingBids (eng w) || (length (bidQueue (eng w)) =? 0)%nat then w
  else loop (set_isProcessingBids true w).

(** [checkAutoBids(excludeTeamId, io)], given the drain loop it may
    restart. *)
Definition checkAutoBids_with (loop : World → World) (excludeTeamId : Z)
    (w : World) : World :=
  let st := state w in
  if negb (is_auction (mode st)) || negb (truthy (current_player_id st)) then w
  else
    let w1 := set_bidQueue (bidQueue (eng w) ++ autoBidScan w excludeTeamId) w in
    if (0 <? length (bidQueue (eng w1)))%nat && negb (isProcessingBids (eng w1))
    then processBidQueue_with loop w1
    else w1.

(** The part of a loop iteration that follows the pacing wait:
    [bidQueue.shift()], [executeBid], [lastBidTime = Date.now()],
    [checkAutoBids], and back to the loop head. The result of
    [executeBid] is dropped. *)
Definition drain_iter (loop : World → World) (w : World) : World :=
  match bidQueue (eng w) with
  | [] => loop w
  | bid :: rest =>
    let w1 := snd (executeBid bid (set_bidQueue rest w)) in
    let w2 := set_lastBidTime (now w1) w1 in
    let w3 := checkAutoBids_with loop (teamId bid) w2 in
    loop w3
  end.

(** [await new Promise(resolve => setTimeout(resolve, ms))]: the loop is
    suspended and resumes in a later turn, not before [ms] have passed. *)
Definition suspend_drain (ms : Z) (w : World) : World :=
  set_drain_timers (drain_timers (rt w) ++ [now w + ms]) w.

(** The [while (bidQueue.length > 0)] loop, run until it suspends or
    ends. An iteration that applies a bid sets [lastBidTime] to the
    current clock, so the next loop head either ends the loop or
    suspends: two rounds of [fuel] are enough ([drain_loop_fuel]). *)
Fixpoint drain_loop (fuel : nat) (w : World) : World :=
  match fuel with
  | O => w
  | S n =>
    if (length (bidQueue (eng w)) =? 0)%nat then set_isProcessingBids false w
    else
      let timeSinceLastBid := now w - lastBidTime (eng w) in
      if timeSinceLastBid <? BID_INTERVAL_MS
      then suspend_drain (BID_INTERVAL_MS - timeSinceLastBid) w
      else drain_iter (drain_loop n) w
  end.

Definition drain_fuel : nat := 2.

Definition processBidQueue : World → World :=
  processBidQueue_with (drain_loop drain_fuel).

Definition checkAutoBids : Z → World → World :=
  checkAutoBids_with (drain_loop drain_fuel).

(** The continuation of a suspended drain loop, run when its timer is
    due. *)
Definition drain_resume : World → World :=
  drain_iter (drain_loop drain_fuel).

(** ** Requests and responses *)

(** [req.user], as set by [authenticateToken] from the token. *)
Record AuthUser := mkAuthUser {
  uid : Z;
  role : string
}.

Inductive Response :=
| RespOk (message : string)
| RespBidQueued (queuePosition : nat) (amt : Z)
| RespDraftPick (nextRound nextPick : Z) (nextTeam : option Z)
| RespErr (status : Z) (error : string).

Definition is_error (r : Response) : bool :=
  match r with RespErr _ _ => true | _ => false end.

(** [requireAdmin] *)
Definition isAdmin (u : AuthUser) : bool := String.eqb (role u) "admin".

Definition forbidden : Response := RespErr 403 "Insufficient permissions".
Definition internal_error : Response := RespErr 500 "Internal server error".

(** ** Phase controller (auction.js, lines 189-344) *)

(** [phaseTimer = setTimeout(() => startBiddingPhase(io), ms)] *)
Definition arm_phaseTimer (ms : Z) (w : World) : World :=
  let h := next_handle (rt w) in
  set_phaseTimer (Some h)
    (set_phase_timers (phase_timers (rt w) ++ [(h, now w + ms)]) (S h) w).

(** [if (phaseTimer) { clearTimeout(phaseTimer); phaseTimer = null; }] *)
Definition cancel_phaseTimer (w : World) : World :=
  match phaseTimer (eng w) with
  | None => w
  | Some h =>
    set_phaseTimer None
      (set_phase_timers (filter (λ p, p.1 ≠ h) (phase_timers (rt w)))
         (next_handle (rt w)) w)
  end.

Definition clear_current (s : AuctionState) : AuctionState :=
  mkAuctionState (mode s) None 0 None None
    (draft_round s) (draft_pick s) (draft_order s) (season s).

Definition with_timer_end (t : option Z) (s : AuctionState) : AuctionState :=
  mkAuctionState (mode s) (current_player_id s) (current_bid s)
    (current_bidder_team_id s) t
    (draft_round s) (draft_pick s) (draft_order s) (season s).

(** POST /auction/start *)
Definition start_route (u : AuthUser) (season_arg : option Z) (w : World)
    : Response * World :=
  if negb (isAdmin u) then (forbidden, w)
  else
    let season := default 1 season_arg in
    let w1 := set_lastBidTime 0 (set_autoBidSettings [] (set_bidQueue [] w)) in
    let w2 :=
      set_state (fun s =>
        mkAuctionState ModeAuction None 0 None None
          (draft_round s) (draft_pick s) (draft_order s) season) w1 in
    (RespOk "Auction started", emit (EvAuctionStarted season) w2).

(** [triggerInitialAutoBids(state, io)] *)
Definition triggerInitialAutoBids (st : AuctionState) (w : World) : World :=
  let sortedAutoBids :=
    stable_sort (λ a b, maxBid a.2 >? maxBid b.2)
      (filter (λ e, active e.2 = true ∧ current_bid st ≤ maxBid e.2)
         (autoBidSettings (eng w))) in
  match sortedAutoBids with
  | [] => w
  | (team_id, settings) :: _ =>
    match get_team w team_id with
    | None => w
    | Some team =>
      if current_bid st <=? budget_remaining team then
        processBidQueue
          (set_bidQueue
             (bidQueue (eng w) ++ [mkBid team_id (current_bid st) 0 true]) w)
      else w
    end
  end.

(** [startBiddingPhase(io)] *)
Definition startBiddingPhase (w : World) : World :=
  let w1 := set_currentPhase "bidding" w in
  let timerEnd := now w1 + 30 * 1000 in
  let w2 := set_state (with_timer_end (Some timerEnd)) w1 in
  let w3 := emit (EvBiddingStarted timerEnd) w2 in
  let st := state w3 in
  if truthy (current_player_id st) then triggerInitialAutoBids st w3 else w3.

(** [SELECT p.* FROM players p JOIN users u ON p.user_id = u.id
     WHERE p.id = ? AND p.is_available = 1] *)
Definition available_player (w : World) (id : Z) : option Player :=
  p ← players (db w) !! id;
  uid ← player_user_id p;
  _ ← users (db w) !! uid;
  if is_available p then Some p else None.

(** POST /auction/next-player *)
Definition next_player_route (u : AuthUser) (player_id : option Z) (w : World)
    : Response * World :=
  if negb (isAdmin u) then (forbidden, w)
  else if negb (truthy player_id) then (RespErr 400 "Player ID is required", w)
  else
    let pid := default 0 player_id in
    match available_player w pid with
    | None => (RespErr 404 "Player not found or not available", w)
    | Some player =>
      let w1 := cancel_phaseTimer (set_autoBidSettings [] (set_bidQueue [] w)) in
      let w2 := set_currentPhase "setup" w1 in
      let setupEndTime := now w2 + setupPhaseDuration (eng w2) in
      let w3 :=
        set_state (fun s =>
          mkAuctionState (mode s) (Some pid) (base_price player) None
            (Some setupEndTime)
            (draft_round s) (draft_pick s) (draft_order s) (season s)) w2 in
      let w4 := emit (EvAuctionPlayer pid (base_price player) setupEndTime) w3 in
      let w5 := arm_phaseTimer (setupPhaseDuration (eng w4)) w4 in
      (RespOk "Player set for auction - setup phase started", w5)
    end.

(** ** Bidding authority (auction.js, lines 346-358) *)

Definition hasBiddingAuthority (team : Team) (userId : Z) (userRole : string)
    : bool :=
  if String.eqb userRole "admin" then true
  else if truthy (bidding_authority_user_id team) then
    bool_decide (bidding_authority_user_id team = Some userId)
  else bool_decide (owner_id team = Some userId).

(** ** Bids and auto-bid instructions (auction.js, lines 360-529) *)

(** [bidQueue.length] as the caller reads it once [processBidQueue(io)]
    has returned at its first [await]: the head entry has already been
    shifted when no pacing wait was needed. *)
Definition queue_length_after_call (w : World) : nat :=
  let q := bidQueue (eng w) in
  if isProcessingBids (eng w) || (length q =? 0)%nat then length q
  else if now w - lastBidTime (eng w) <? BID_INTERVAL_MS then length q
  else Nat.pred (length q).

(** POST /auction/bid *)
Definition bid_route (u : AuthUser) (team_id amount_arg increment_arg : option Z)
    (w : World) : Response * World :=
  if negb (truthy team_id) || negb (truthy amount_arg) then
    (RespErr 400 "Team ID and amount are required", w)
  else
    let tid := default 0 team_id in
    let amt := default 0 amount_arg in
    let st := state w in
    if negb (is_auction (mode st)) then
      (RespErr 400 "Auction is not active", w)
    else if negb (truthy (current_player_id st)) then
      (RespErr 400 "No player currently being auctioned", w)
    else if String.eqb (currentPhase (eng w)) "setup" then
      (RespErr 400 "Still in setup phase - set your auto-bid target instead", w)
    else
      match get_team w tid with
      | None => (RespErr 404 "Team not found", w)
      | Some team =>
        if negb (hasBiddingAuthority team (uid u) (role u)) then
          (RespErr 403 "You do not have bidding authority for this team", w)
        else if amt <=? current_bid st then
          (RespErr 400 "Bid must be higher than current bid", w)
        else if budget_remaining team <? amt then
          (RespErr 400 "Insufficient budget", w)
        else
          let entry :=
            mkBid tid amt (js_or increment_arg (amt - current_bid st)) false in
          let w1 := set_bidQueue (bidQueue (eng w) ++ [entry]) w in
          let w2 := emit (EvBidQueued tid amt (length (bidQueue (eng w1)))) w1 in
          (RespBidQueued (queue_length_after_call w2) amt, processBidQueue w2)
      end.

(** [autoBidSettings[team_id] = settings] *)
Fixpoint ab_insert (k : Z) (v : AutoBid) (l : list (Z * AutoBid))
    : list (Z * AutoBid) :=
  match l with
  | [] => [(k, v)]
  | (k', v') :: r =>
    if k =? k' then (k, v) :: r
    else if k <? k' then (k, v) :: (k', v') :: r
    else (k', v') :: ab_insert k v r
  end.

(** [delete autoBidSettings[team_id]] *)
Definition ab_delete (k : Z) (l : list (Z * AutoBid)) : list (Z * AutoBid) :=
  filter (λ e, e.1 ≠ k) l.

(** [autoBidSettings[team_id]] *)
Definition ab_lookup (k : Z) (l : list (Z * AutoBid)) : option AutoBid :=
  snd <$> find (λ e, e.1 =? k) l.

(** POST /auction/auto-bid *)
Definition auto_bid_route (u : AuthUser) (team_id max_bid increment_arg : option Z)
    (active_arg : option bool) (w : World) : Response * World :=
  if negb (truthy team_id) then (RespErr 400 "Team ID is required", w)
  else
    let tid := default 0 team_id in
    match get_team w tid with
    | None => (RespErr 404 "Team not found", w)
    | Some team =>
      if negb (hasBiddingAuthority team (uid u) (role u)) then
        (RespErr 403 "You do not have bidding authority for this team", w)
      else
        match active_arg with
        | Some false =>
          let w1 := set_autoBidSettings (ab_delete tid (autoBidSettings (eng w))) w in
          (RespOk "Auto-bid disabled",
           emit (EvAutoBidUpdated tid (ab_lookup tid (autoBidSettings (eng w1)))) w1)
        | _ =>
          if negb (truthy max_bid) || negb (truthy increment_arg) then
            (RespErr 400 "Max bid and increment are required", w)
          else if budget_remaining team <? default 0 max_bid then
            (RespErr 400 "Max bid exceeds budget", w)
          else
            let settings :=
              mkAutoBid (default 0 max_bid) (default 0 increment_arg) true in
            let w1 :=
              set_autoBidSettings
                (ab_insert tid settings (autoBidSettings (eng w))) w in
            (RespOk "Auto-bid settings updated",
             emit (EvAutoBidUpdated tid (ab_lookup tid (autoBidSettings (eng w1)))) w1)
        end
    end.

(** ** Sold, unsold and the end of the auction (auction.js, lines 531-683) *)

(** [INSERT INTO team_roster ...]: the table is declared
    [UNIQUE(team_id, player_id, season)], and a violation throws. *)
Definition same_roster_key (a b : RosterRow) : bool :=
  (r_team_id a =? r_team_id b) && (r_player_id a =? r_player_id b)
  && (r_season a =? r_season b).

Definition insert_roster (row : RosterRow) (t : list RosterRow)
    : option (list RosterRow) :=
  if existsb (same_roster_key row) t then None else Some (t ++ [row]).

Definition debit (price : Z) (t : Team) : Team :=
  mkTeam (team_name t) (owner_id t) (captain_id t)
    (budget_remaining t - price) (bidding_authority_user_id t).

Definition make_unavailable (p : Player) : Player :=
  mkPlayer (player_user_id p) (base_price p) false.

(** [UPDATE auction_log SET is_winning_bid = 1 WHERE player_id = ? AND
     team_id = ? AND bid_amount = ? AND season = ?] *)
Definition matches_bid (pid tid bid ssn : Z) (r : AuctionLogRow) : bool :=
  (l_player_id r =? pid) && (l_team_id r =? tid) && (l_bid_amount r =? bid)
  && (l_season r =? ssn).

Definition mark_winning (pid tid bid ssn : Z) (r : AuctionLogRow)
    : AuctionLogRow :=
  if matches_bid pid tid bid ssn r then
    mkAuctionLogRow (l_player_id r) (l_team_id r) (l_bid_amount r)
      (l_bid_increment r) (l_is_auto_bid r) true (l_season r)
  else r.

(** The first statements of both /sold and /unsold:
    [bidQueue = []; currentPhase = 'idle'; clear phaseTimer]. *)
Definition reset_block (w : World) : World :=
  cancel_phaseTimer (set_currentPhase "idle" (set_bidQueue [] w)).

(** POST /auction/sold *)
Definition sold_route (u : AuthUser) (w : World) : Response * World :=
  if negb (isAdmin u) then (forbidden, w)
  else
    let w0 := reset_block w in
    let st := state w0 in
    if negb (truthy (current_player_id st))
       || negb (truthy (current_bidder_team_id st)) then
      (RespErr 400 "No active bid to complete", w0)
    else
      let pid := default 0 (current_player_id st) in
      let tid := default 0 (current_bidder_team_id st) in
      let price := current_bid st in
      match insert_roster (mkRosterRow tid pid AcqAuction price (season st))
              (team_roster (db w0)) with
      | None => (internal_error, w0)
      | Some roster' =>
        let w1 := set_team_roster roster' w0 in
        let w2 := set_teams (alter (debit price) tid (teams (db w1))) w1 in
        let w3 := set_players (alter make_unavailable pid (players (db w2))) w2 in
        let w4 :=
          set_auction_log
            (map (mark_winning pid tid price (season st)) (auction_log (db w3)))
            w3 in
        let w5 := set_state clear_current w4 in
        let w6 := set_autoBidSettings [] w5 in
        (RespOk "Player sold", emit (EvSold pid tid price) w6)
      end.

(** POST /auction/unsold *)
Definition unsold_route (u : AuthUser) (w : World) : Response * World :=
  if negb (isAdmin u) then (forbidden, w)
  else
    let w0 := reset_block w in
    let st := state w0 in
    if negb (truthy (current_player_id st)) then
      (RespErr 400 "No player being auctioned", w0)
    else
      let pid := default 0 (current_player_id st) in
      let w1 := set_state clear_current w0 in
      let w2 := set_autoBidSettings [] w1 in
      (RespOk "Player marked as unsold", emit (EvUnsold pid) w2).

(** POST /auction/end *)
Definition end_route (u : AuthUser) (w : World) : Response * World :=
  if negb (isAdmin u) then (forbidden, w)
  else
    let w1 := set_autoBidSettings [] (set_bidQueue [] w) in
    let w2 :=
      set_state (fun s =>
        mkAuctionState ModeIdle None 0 None None
          (draft_round s) (draft_pick s) (draft_order s) (season s)) w1 in
    (RespOk "Auction ended", emit EvAuctionEnded w2).

(** ** Delegation of bidding authority (auction.js, lines 753-867) *)

Definition with_authority (a : option Z) (t : Team) : Team :=
  mkTeam (team_name t) (owner_id t) (captain_id t) (budget_remaining t) a.

(** [SELECT 1 FROM team_roster tr JOIN players p ON tr.player_id = p.id
     WHERE tr.team_id = ? AND p.user_id = ? AND tr.acquisition_type = 'core'] *)
Definition is_core (a : Acquisition) : bool :=
  match a with AcqCore => true | _ => false end.

Definition isCorePlayer (w : World) (team_id user_id : Z) : bool :=
  existsb (λ tr,
    (r_team_id tr =? team_id) && is_core (r_acquisition_type tr)
    && match players (db w) !! r_player_id tr with
       | Some p => bool_decide (player_user_id p = Some user_id)
       | None => false
       end)
    (team_roster (db w)).

(** POST /auction/authority *)
Definition authority_route (u : AuthUser) (team_id delegate_to_user_id : option Z)
    (w : World) : Response * World :=
  if negb (truthy team_id) then (RespErr 400 "Team ID is required", w)
  else
    let tid := default 0 team_id in
    match get_team w tid with
    | None => (RespErr 404 "Team not found", w)
    | Some team =>
      let isOwner := bool_decide (owner_id team = Some (uid u)) in
      if negb (isAdmin u) && negb isOwner then
        (RespErr 403 "Only the team owner can delegate bidding authority", w)
      else if truthy delegate_to_user_id then
        let del := default 0 delegate_to_user_id in
        match users (db w) !! del with
        | None => (RespErr 404 "User not found", w)
        | Some delegateUser =>
          let isCaptain := bool_decide (captain_id team = Some del) in
          if negb isCaptain && negb (isCorePlayer w tid del) then
            (RespErr 400 "Can only delegate to team captain or core players", w)
          else
            let w1 :=
              set_teams (alter (with_authority (Some del)) tid (teams (db w))) w in
            (RespOk "Bidding authority delegated",
             emit (EvAuthorityChanged tid (Some del)) w1)
        end
      else
        let w1 := set_teams (alter (with_authority None) tid (teams (db w))) w in
        (RespOk "Bidding authority returned to owner",
         emit (EvAuthorityChanged tid None) w1)
    end.

(** DELETE /auction/authority/:team_id *)
Definition revoke_route (u : AuthUser) (team_id : Z) (w : World)
    : Response * World :=
  match get_team w team_id with
  | None => (RespErr 404 "Team not found", w)
  | Some team =>
    let isOwner := bool_decide (owner_id team = Some (uid u)) in
    if negb (isAdmin u) && negb isOwner then
      (RespErr 403 "Only the team owner can revoke bidding authority", w)
    else
      let w1 := set_teams (alter (with_authority None) team_id (teams (db w))) w in
      (RespOk "Bidding authority revoked - returned to owner",
       emit (EvAuthorityChanged team_id None) w1)
  end.

(** ** Operator actions (auction.js, lines 869-1092) *)

(** POST /auction/manual-bid *)
Definition manual_bid_route (u : AuthUser) (team_id amount_arg : option Z)
    (w : World) : Response * World :=
  if negb (isAdmin u) then (forbidden, w)
  else if negb (truthy team_id) || negb (truthy amount_arg) then
    (RespErr 400 "Team ID and amount are required", w)
  else
    let tid := default 0 team_id in
    let amt := default 0 amount_arg in
    let st := state w in
    if negb (truthy (current_player_id st)) then
      (RespErr 400 "No player currently being auctioned", w)
    else
      match get_team w tid with
      | None => (RespErr 404 "Team not found", w)
      | Some team =>
        if amt <=? current_bid st then
          (RespErr 400 "Bid must be higher than current bid", w)
        else if budget_remaining team <? amt then
          (RespErr 400 "Insufficient budget", w)
        else
          let incr := amt - current_bid st in
          let newTimerEnd := now w + 10 * 1000 in
          let pid := default 0 (current_player_id st) in
          let w1 :=
            set_state (fun s =>
              mkAuctionState (mode s) (current_player_id s) amt (Some tid)
                (Some newTimerEnd)
                (draft_round s) (draft_pick s) (draft_order s) (season s)) w in
          let w2 :=
            set_auction_log
              (auction_log (db w1) ++
                 [mkAuctionLogRow pid tid amt incr false false (season st)]) w1 in
          (RespOk "Manual bid placed",
           emit (EvBid pid tid amt incr false true newTimerEnd 0) w2)
      end.

(** POST /auction/skip-to-bidding *)
Definition skip_to_bidding_route (u : AuthUser) (w : World) : Response * World :=
  if negb (isAdmin u) then (forbidden, w)
  else if negb (String.eqb (currentPhase (eng w)) "setup") then
    (RespErr 400 "Not in setup phase", w)
  else (RespOk "Skipped to bidding phase", startBiddingPhase (cancel_phaseTimer w)).

(** POST /auction/extend-timer *)
Definition extend_timer_route (u : AuthUser) (seconds_arg : option Z) (w : World)
    : Response * World :=
  if negb (isAdmin u) then (forbidden, w)
  else
    let seconds := default 30 seconds_arg in
    if negb (truthy (current_player_id (state w))) then
      (RespErr 400 "No active auction", w)
    else
      let newTimerEnd := now w + seconds * 1000 in
      let w1 := set_state (with_timer_end (Some newTimerEnd)) w in
      (RespOk "Timer extended", emit (EvTimerExtended newTimerEnd seconds) w1).

(** POST /auction/pause *)
Definition pause_route (u : AuthUser) (w : World) : Response * World :=
  if negb (isAdmin u) then (forbidden, w)
  else
    let w1 := cancel_phaseTimer w in
    let previousPhase := currentPhase (eng w1) in
    let w2 := set_currentPhase "paused" w1 in
    (RespOk "Auction paused", emit (EvPaused previousPhase) w2).

(** POST /auction/set-setup-duration *)
Definition set_setup_duration_route (u : AuthUser) (seconds_arg : option Z)
    (w : World) : Response * World :=
  if negb (isAdmin u) then (forbidden, w)
  else
    let seconds := default 30 seconds_arg in
    if (seconds <? 5) || (120 <? seconds) then
      (RespErr 400 "Duration must be between 5 and 120 seconds", w)
    else
      let w1 := set_setupPhaseDuration (seconds * 1000) w in
      (RespOk "Setup phase duration set", emit (EvConfigUpdated seconds) w1).

(** POST /auction/resume *)
Definition resume_route (u : AuthUser) (phase_arg : option string) (w : World)
    : Response * World :=
  if negb (isAdmin u) then (forbidden, w)
  else
    let phase := default "bidding"%string phase_arg in
    let w1 := set_currentPhase phase w in
    let timerEnd := now w1 + 30 * 1000 in
    let w2 := set_state (with_timer_end (Some timerEnd)) w1 in
    (RespOk "Auction resumed", emit (EvResumed phase timerEnd) w2).

(** ** Draft engine (draft.js) *)

(** [SELECT id FROM teams ORDER BY name] *)
Definition teams_by_name (w : World) : list Z :=
  map fst
    (stable_sort (λ a b, String.ltb (team_name a.2) (team_name b.2))
       (map_to_list (teams (db w)))).

(** POST /draft/start *)
Definition draft_start_route (u : AuthUser) (season_arg : option Z)
    (team_order : option (list Z)) (w : World) : Response * World :=
  if negb (isAdmin u) then (forbidden, w)
  else
    let season := default 1 season_arg in
    let orderToUse :=
      match team_order with
      | None | Some [] => teams_by_name w
      | Some order => order
      end in
    let w1 :=
      set_state (fun s =>
        mkAuctionState ModeDraft None 0 None None 1 1 (Some orderToUse) season) w in
    (RespOk "Draft started", emit (EvDraftStarted season orderToUse) w1).

(** The snake arithmetic shared by GET /draft/status (lines 65-74) and
    POST /draft/pick (lines 142-147 and 214-217). *)
Definition pickIndex (totalTeams pick : Z) : option Z :=
  js_mod (pick - 1) totalTeams.

Definition isReverseRound (round : Z) : bool := Z.rem round 2 =? 0.

Definition teamIndex (totalTeams round pick : Z) : option Z :=
  i ← pickIndex totalTeams pick;
  Some (if isReverseRound round then totalTeams - 1 - i else i).

Definition currentTeamId (draftOrder : list Z) (round pick : Z) : option Z :=
  i ← teamIndex (Z.of_nat (length draftOrder)) round pick;
  js_index draftOrder i.

Definition draftOrder_of (st : AuctionState) : list Z :=
  default [] (draft_order st).

(** GET /draft/status: the team on the clock, when a draft is active. *)
Definition draft_status_team (w : World) : option Z :=
  let st := state w in
  if negb (is_draft (mode st)) then None
  else currentTeamId (draftOrder_of st) (draft_round st) (draft_pick st).

(** [let nextPick = ...; let nextRound = ...; if (...) nextRound++] *)
Definition nextPick (pick : Z) : Z := pick + 1.

Definition nextRound (totalTeams round pick : Z) : Z :=
  if bool_decide (pickIndex totalTeams (nextPick pick) = Some 0)
     && (nextPick pick >? pick)
  then round + 1 else round.

(** POST /draft/pick *)
Definition draft_pick_route (u : AuthUser) (player_id : option Z) (w : World)
    : Response * World :=
  if negb (truthy player_id) then (RespErr 400 "Player ID is required", w)
  else
    let pid := default 0 player_id in
    let st := state w in
    if negb (is_draft (mode st)) then (RespErr 400 "Draft is not active", w)
    else
      let draftOrder := draftOrder_of st in
      let totalTeams := Z.of_nat (length draftOrder) in
      match currentTeamId draftOrder (draft_round st) (draft_pick st) with
      | None => (internal_error, w)
      | Some team_id =>
        match get_team w team_id with
        | None => (internal_error, w)
        | Some team =>
          let isTeamOwnerOrCaptain :=
            bool_decide (owner_id team = Some (uid u))
            || bool_decide (captain_id team = Some (uid u)) in
          if negb (isAdmin u) && negb isTeamOwnerOrCaptain then
            (RespErr 403 "It is not your turn to pick", w)
          else
            match available_player w pid with
            | None => (RespErr 404 "Player not found or not available", w)
            | Some player =>
              if existsb (λ tr, (r_player_id tr =? pid) && (r_season tr =? season st))
                   (team_roster (db w)) then
                (RespErr 400 "Player has already been drafted", w)
              else
                match insert_roster (mkRosterRow team_id pid AcqDraft 0 (season st))
                        (team_roster (db w)) with
                | None => (internal_error, w)
                | Some roster' =>
                  let w1 := set_team_roster roster' w in
                  let w2 :=
                    set_players (alter make_unavailable pid (players (db w1))) w1 in
                  let w3 :=
                    set_draft_log
                      (draft_log (db w2) ++
                         [mkDraftLogRow (draft_round st) (draft_pick st) team_id pid
                            (season st)]) w2 in
                  let np := nextPick (draft_pick st) in
                  let nr := nextRound totalTeams (draft_round st) (draft_pick st) in
                  let w4 :=
                    set_state (fun s =>
                      mkAuctionState (mode s) (current_player_id s) (current_bid s)
                        (current_bidder_team_id s) None nr np (draft_order s)
                        (season s)) w3 in
                  let nextTeamId := currentTeamId draftOrder nr np in
                  let w5 :=
                    emit (EvDraftPick (draft_round st) (draft_pick st) team_id pid
                            nr np nextTeamId) w4 in
                  (RespDraftPick nr np nextTeamId, w5)
                end
            end
        end
      end.

(** POST /draft/set-timer *)
Definition draft_set_timer_route (u : AuthUser) (seconds_arg : option Z)
    (w : World) : Response * World :=
  if negb (isAdmin u) then (forbidden, w)
  else
    let seconds := default 120 seconds_arg in
    let timerEnd := now w + seconds * 1000 in
    let w1 := set_state (with_timer_end (Some timerEnd)) w in
    (RespOk "Timer set", emit (EvDraftTimer timerEnd seconds) w1).

(** POST /draft/end *)
Definition draft_end_route (u : AuthUser) (w : World) : Response * World :=
  if negb (isAdmin u) then (forbidden, w)
  else
    let w1 :=
      set_state (fun s =>
        mkAuctionState ModeIdle None (current_bid s) (current_bidder_team_id s)
          None 1 1 (draft_order s) (season s)) w in
    (RespOk "Draft ended", emit EvDraftEnded w1).

(** ** The event loop *)

Inductive Action :=
| AStart (u : AuthUser) (season_arg : option Z)
| ANextPlayer (u : AuthUser) (player_id : option Z)
| ABid (u : AuthUser) (team_id amount_arg increment_arg : option Z)
| AAutoBid (u : AuthUser) (team_id max_bid increment_arg : option Z)
    (active_arg : option bool)
| ASold (u : AuthUser)
| AUnsold (u : AuthUser)
| AEnd (u : AuthUser)
| AAuthority (u : AuthUser) (team_id delegate_to_user_id : option Z)
| ARevoke (u : AuthUser) (team_id : Z)
| AManualBid (u : AuthUser) (team_id amount_arg : option Z)
| ASkipToBidding (u : AuthUser)
| AExtendTimer (u : AuthUser) (seconds_arg : option Z)
| APause (u : AuthUser)
| ASetSetupDuration (u : AuthUser) (seconds_arg : option Z)
| AResume (u : AuthUser) (phase_arg : option string)
| ADraftStart (u : AuthUser) (season_arg : option Z) (team_order : option (list Z))
| ADraftPick (u : AuthUser) (player_id : option Z)
| ADraftSetTimer (u : AuthUser) (seconds_arg : option Z)
| ADraftEnd (u : AuthUser)
(* the setup timer with this handle is due *)
| TPhaseTimer (h : nat)
(* the suspended drain loop at this position is due *)
| TDrainTimer (i : nat)
(* the other routers (teams, users, players): they write the [teams],
   [users], [players] and [team_roster] tables only, and none of them
   deletes a team *)
| XTables (t : gmap Z Team) (us : gmap Z User) (p : gmap Z Player)
    (r : list RosterRow).

(** A turn of the event loop happens [delay] milliseconds after the
    previous one. *)
Record Event := mkEvent {
  delay : N;
  action : Action
}.

Definition fire_phaseTimer (h : nat) (w : World) : World :=
  match list_find (λ p, p.1 = h) (phase_timers (rt w)) with
  | Some (_, (_, due)) =>
    if due <=? now w then
      startBiddingPhase
        (set_phase_timers (filter (λ p, p.1 ≠ h) (phase_timers (rt w)))
           (next_handle (rt w)) w)
    else w
  | None => w
  end.

Definition fire_drainTimer (i : nat) (w : World) : World :=
  match drain_timers (rt w) !! i with
  | Some due =>
    if due <=? now w then
      drain_resume (set_drain_timers (delete i (drain_timers (rt w))) w)
    else w
  | None => w
  end.

Definition handle (a : Action) (w : World) : Response * World :=
  match a with
  | AStart u s => start_route u s w
  | ANextPlayer u p => next_player_route u p w
  | ABid u t a i => bid_route u t a i w
  | AAutoBid u t m i a => auto_bid_route u t m i a w
  | ASold u => sold_route u w
  | AUnsold u => unsold_route u w
  | AEnd u => end_route u w
  | AAuthority u t d => authority_route u t d w
  | ARevoke u t => revoke_route u t w
  | AManualBid u t a => manual_bid_route u t a w
  | ASkipToBidding u => skip_to_bidding_route u w
  | AExtendTimer u s => extend_timer_route u s w
  | APause u => pause_route u w
  | ASetSetupDuration u s => set_setup_duration_route u s w
  | AResume u p => resume_route u p w
  | ADraftStart u s o => draft_start_route u s o w
  | ADraftPick u p => draft_pick_route u p w
  | ADraftSetTimer u s => draft_set_timer_route u s w
  | ADraftEnd u => draft_end_route u w
  | TPhaseTimer h => (RespOk "", fire_phaseTimer h w)
  | TDrainTimer i => (RespOk "", fire_drainTimer i w)
  | XTables t us p r =>
    (RespOk "",
     let d := db w in
     if bool_decide (dom (teams d) ⊆ dom t) then
       mkWorld (eng w)
         (mkDb (auction_state d) t us p r (auction_log d) (draft_log d)) (rt w)
     else w)
  end.

Definition step (e : Event) (w : World) : World :=
  snd (handle (action e) (set_clock (now w + Z.of_N (delay e)) w)).

Definition run (evs : list Event) (w : World) : World :=
  foldl (λ w e, step e w) w evs.

(** The server after start-up: the module variables have their initial
    values, no timer is armed, and the database file holds what earlier
    runs left in it. *)
Definition initial_engine : Engine :=
  mkEngine [] false 0 30000 [] "idle" None.

Definition boot (d : Db) (t0 : Z) : World :=
  mkWorld initial_engine d (mkRuntime t0 [] O [] []).

Definition reachable (w : World) : Prop :=
  ∃ d t0 evs, w = run evs (boot d t0).

(** ** A small league used in the examples *)

Module Demo.

Definition admin : AuthUser := mkAuthUser 1 "admin".
Definition owner1 : AuthUser := mkAuthUser 10 "owner".
Definition owner2 : AuthUser := mkAuthUser 20 "owner".
Definition captain1 : AuthUser := mkAuthUser 11 "captain".

Definition demo_teams : gmap Z Team :=
  <[1 := mkTeam "Aces" (Some 10) (Some 11) 10000000 None]>
  (<[2 := mkTeam "Birdies" (Some 20) (Some 21) 10000000 None]> ∅).

Definition demo_users : gmap Z User :=
  list_to_map
    [(1, mkUser "Admin"); (10, mkUser "Owner A"); (11, mkUser "Captain A");
     (20, mkUser "Owner B"); (21, mkUser "Captain B"); (30, mkUser "Player P");
     (31, mkUser "Player Q"); (32, mkUser "Player R"); (40, mkUser "Fan")].

Definition demo_players : gmap Z Player :=
  list_to_map
    [(7, mkPlayer (Some 30) 100000 true); (8, mkPlayer (Some 31) 100000 true);
     (9, mkPlayer (Some 32) 100000 false)].

Definition demo_roster : list RosterRow :=
  [mkRosterRow 1 9 AcqCore 0 1].

Definition demo_state : AuctionState :=
  mkAuctionState ModeIdle None 0 None None 1 1 None 1.

Definition demo_db : Db :=
  mkDb demo_state demo_teams demo_users demo_players demo_roster [] [].

Definition demo_world : World := boot demo_db 1000000.

(** Player 7 is on the block and the setup phase has been skipped. *)
Definition bidding_world : World :=
  run [mkEvent 0 (AStart admin None);
       mkEvent 0 (ANextPlayer admin (Some 7));
       mkEvent 1000 (ASkipToBidding admin)] demo_world.

End Demo.

(** * Properties *)

(** ** Proof support *)

(** Case analysis on the next test of a handler that occurs in [H]. *)
Ltac split_handler H :=
  match type of H with
  | context [if ?c then _ else _] => destruct c eqn:?
  | context [match ?x with _ => _ end] => destruct x eqn:?
  end.

Ltac handler_cases H :=
  repeat (first
    [ discriminate H
    | progress (cbn beta iota zeta in H)
    | split_handler H ]).



(** ** Snake draft *)

Lemma js_mod_nonneg (a b : Z) :
  0 ≤ a → 0 < b → js_mod a b = Some (a mod b).
Proof.
  intros Ha Hb. unfold js_mod.
  destruct (Z.eqb_spec b 0) as [->|_]; [lia|].
  by rewrite Z.rem_mod_nonneg.
Qed.

Lemma isReverseRound_odd (round : Z) :
  0 ≤ round → isReverseRound round = negb (Z.odd round).
Proof.
  intros Hr. unfold isReverseRound.
  rewrite Z.rem_mod_nonneg by lia.
  rewrite Zmod_odd. by destruct (Z.odd round).
Qed.

Lemma teamIndex_spec (N round pick : Z) :
  0 < N → 1 ≤ round → 1 ≤ pick →
  teamIndex N round pick =
    Some (if Z.odd round then (pick - 1) mod N else N - 1 - (pick - 1) mod N).
Proof.
  intros HN Hr Hp. unfold teamIndex, pickIndex.
  rewrite js_mod_nonneg by lia. simpl.
  rewrite isReverseRound_odd by lia.
  by destruct (Z.odd round).
Qed.

Lemma teamIndex_range (N round pick : Z) :
  0 < N →
  let i := (pick - 1) mod N in
  0 ≤ (if Z.odd round then i else N - 1 - i) < N.
Proof.
  intros HN i. pose proof (Z.mod_pos_bound (pick - 1) N HN).
  destruct (Z.odd round); subst i; lia.
Qed.

Lemma currentTeamId_spec (order : list Z) (round pick : Z) :
  order ≠ [] → 1 ≤ round → 1 ≤ pick →
  let N := Z.of_nat (length order) in
  let i := (pick - 1) mod N in
  currentTeamId order round pick =
    order !! Z.to_nat (if Z.odd round then i else N - 1 - i)
  ∧ is_Some (currentTeamId order round pick).
Proof.
  intros Hne Hr Hp N i.
  assert (HN : 0 < N) by (subst N; destruct order; simpl in *; [done|lia]).
  unfold currentTeamId. fold N. rewrite teamIndex_spec by lia. simpl. fold i.
  pose proof (teamIndex_range N round pick HN) as Hrange. simpl in Hrange. fold i in Hrange.
  unfold js_index.
  destruct (Z.ltb_spec (if Z.odd round then i else N - 1 - i) 0) as [?|_]; [lia|].
  split; [done|].
  apply lookup_lt_is_Some. subst N. lia.
Qed.

Lemma nextRound_spec (N round pick : Z) :
  0 < N → 1 ≤ pick →
  nextRound N round pick =
    if (pick + 1 - 1) mod N =? 0 then round + 1 else round.
Proof.
  intros HN Hp. unfold nextRound, nextPick, pickIndex.
  rewrite js_mod_nonneg by lia.
  replace (pick + 1 >? pick) with true by (symmetry; apply Z.gtb_gt; lia).
  rewrite andb_true_r.
  destruct (Z.eqb_spec ((pick + 1 - 1) mod N) 0) as [->|Hne].
  - by rewrite bool_decide_eq_true_2.
  - rewrite bool_decide_eq_false_2; [done|]. intros [=]. done.
Qed.

(** C5. With a non-empty draft order of length N, a 1-based round and a
    1-based, globally increasing pick number, the team on the clock (for
    GET /draft/status and for POST /draft/pick alike) is
    draftOrder[(pick - 1) mod N] in odd rounds and
    draftOrder[N - 1 - ((pick - 1) mod N)] in even rounds, and that entry
    exists. A successful pick adds one to the pick number, and adds one to
    the round exactly when the index of the incremented pick is 0. For
    N = 6: pick 1 is index 0, pick 6 is index 5, pick 7 (round 2) is index
    5, and pick 12 (round 2) is index 0. *)
Theorem C5_snake_draft_turn (w : World) (u : AuthUser) (player_id : option Z) :
  let st := state w in
  let order := draftOrder_of st in
  let N := Z.of_nat (length order) in
  let i := (draft_pick st - 1) mod N in
  order ≠ [] → 1 ≤ draft_round st → 1 ≤ draft_pick st →
  currentTeamId order (draft_round st) (draft_pick st) =
    order !! Z.to_nat (if Z.odd (draft_round st) then i else N - 1 - i)
  ∧ is_Some (currentTeamId order (draft_round st) (draft_pick st))
  ∧ (is_draft (mode st) = true →
     draft_status_team w = currentTeamId order (draft_round st) (draft_pick st))
  ∧ (∀ resp w',
       draft_pick_route u player_id w = (resp, w') → is_error resp = false →
       draft_pick (state w') = draft_pick st + 1
       ∧ draft_round (state w') =
           (if (draft_pick st + 1 - 1) mod N =? 0
            then draft_round st + 1 else draft_round st)
       ∧ ∃ team_id,
           currentTeamId order (draft_round st) (draft_pick st) = Some team_id
           ∧ team_roster (db w') =
               team_roster (db w) ++
                 [mkRosterRow team_id (default 0 player_id) AcqDraft 0 (season st)])
  ∧ teamIndex 6 1 1 = Some 0 ∧ teamIndex 6 1 6 = Some 5
  ∧ teamIndex 6 2 7 = Some 5 ∧ teamIndex 6 2 12 = Some 0.
Proof.
  intros st order N i Hne Hr Hp.
  destruct (currentTeamId_spec order _ _ Hne Hr Hp) as [Hcur Hsome].
  assert (HN : 0 < N) by (subst N; destruct order; simpl in *; [done|lia]).
  split; [exact Hcur|]. split; [exact Hsome|]. split.
  { intros Hmode. unfold draft_status_team. fold st. by rewrite Hmode. }
  split; [|by repeat split].
  intros resp w' Hroute Hok.
  unfold draft_pick_route in Hroute. fold st in Hroute. fold order in Hroute.
  fold N in Hroute.
  handler_cases Hroute; injection Hroute as <- <-; try discriminate Hok.
  simpl. rewrite nextRound_spec by lia. fold N.
  split; [done|]. split; [done|].
  eexists. split; [done|].
  match goal with
  | H : insert_roster _ _ = Some _ |- _ =>
    unfold insert_roster in H; handler_cases H; by injection H as <-
  end.
Qed.

Lemma C5_snake_draft_turn_witness :
  let w :=
    run [mkEvent 0 (ADraftStart Demo.admin None (Some [1; 2]))] Demo.demo_world in
  draft_status_team w = Some 1
  ∧ draft_pick (state (snd (draft_pick_route Demo.owner1 (Some 7) w))) = 2.
Proof.
  intros w.
  assert (Hne : draftOrder_of (state w) ≠ []) by (vm_compute; discriminate).
  assert (Hr : 1 ≤ draft_round (state w)) by (vm_compute; discriminate).
  assert (Hp : 1 ≤ draft_pick (state w)) by (vm_compute; discriminate).
  destruct (C5_snake_draft_turn w Demo.owner1 (Some 7) Hne Hr Hp)
    as (Hcur & _ & Hstatus & Hpick & _).
  split.
  - rewrite Hstatus by reflexivity. rewrite Hcur. reflexivity.
  - destruct (Hpick _ _ (surjective_pairing (draft_pick_route Demo.owner1 (Some 7) w)))
      as (Hnext & _); [reflexivity|].
    rewrite Hnext. reflexivity.
Defined.

(** ** Bidding authority and delegation *)

(** The delegate is a member of the team's roster with acquisition type
    'core'. *)
Definition core_member (w : World) (team_id user_id : Z) : Prop :=
  ∃ row p,
    row ∈ team_roster (db w)
    ∧ r_team_id row = team_id
    ∧ r_acquisition_type row = AcqCore
    ∧ players (db w) !! r_player_id row = Some p
    ∧ player_user_id p = Some user_id.

Lemma isCorePlayer_spec (w : World) (team_id user_id : Z) :
  isCorePlayer w team_id user_id = true ↔ core_member w team_id user_id.
Proof.
  unfold isCorePlayer, core_member. rewrite existsb_exists. split.
  - intros (row & Hin & Hrow).
    apply andb_prop in Hrow as [Hrow Hp]. apply andb_prop in Hrow as [Ht Hc].
    destruct (players (db w) !! r_player_id row) as [p|] eqn:Hlk; [|discriminate].
    exists row, p. split_and!.
    + by apply list_elem_of_In.
    + by apply Z.eqb_eq.
    + by destruct (r_acquisition_type row).
    + done.
    + by apply bool_decide_eq_true_1 in Hp.
  - intros (row & p & Hin & Ht & Hc & Hlk & Hp).
    exists row. split; [by apply list_elem_of_In|].
    rewrite Hlk, Hc. simpl. rewrite andb_true_r.
    rewrite (bool_decide_eq_true_2 _ Hp), andb_true_r.
    by apply Z.eqb_eq.
Qed.

Lemma not_admin_eqb (userRole : string) :
  userRole ≠ "admin"%string → String.eqb userRole "admin" = false.
Proof. by intros ?%String.eqb_neq. Qed.

Lemma owner_authority (team : Team) (userId : Z) (userRole : string) :
  userRole ≠ "admin"%string → truthy (bidding_authority_user_id team) = false →
  hasBiddingAuthority team userId userRole = true ↔ owner_id team = Some userId.
Proof.
  intros Hrole Hnone. unfold hasBiddingAuthority.
  rewrite (not_admin_eqb _ Hrole), Hnone. apply bool_decide_eq_true.
Qed.

Lemma delegate_authority (team : Team) (userId d : Z) (userRole : string) :
  userRole ≠ "admin"%string → bidding_authority_user_id team = Some d → d ≠ 0 →
  hasBiddingAuthority team userId userRole = true ↔ userId = d.
Proof.
  intros Hrole Hd Hnz. unfold hasBiddingAuthority.
  rewrite (not_admin_eqb _ Hrole), Hd. simpl.
  destruct (Z.eqb_spec d 0) as [?|_]; [done|]. simpl.
  rewrite bool_decide_eq_true. split; [by intros [=]|by intros ->].
Qed.

Lemma get_team_alter (w : World) (f : Team → Team) (tid : Z) (team : Team) :
  get_team w tid = Some team →
  get_team (set_teams (alter f tid (teams (db w))) w) tid = Some (f team).
Proof.
  unfold get_team. simpl. intros H. rewrite lookup_alter.
  rewrite decide_True by done. by rewrite H.
Qed.

(** C8. Authority is a function of (team, user, role): the admin role
    always has it; otherwise, with a delegate set, exactly the delegate;
    otherwise exactly the owner. A delegation request ends either in an
    error that changes nothing, or with a delegate who is the team's
    captain or a 'core' roster member recorded on the team; a delegate
    who is neither is rejected, and a captain or core member who exists
    as a user is accepted from the owner or an admin. A revocation by the
    owner or an admin succeeds, and afterwards exactly the owner has the
    authority (next to admins). *)
Theorem C8_bidding_authority (w : World) (u : AuthUser) (tid del : Z) (team : Team) :
  get_team w tid = Some team → tid ≠ 0 → del ≠ 0 →
  (∀ userId, hasBiddingAuthority team userId "admin" = true)
  ∧ (∀ userId userRole d,
       userRole ≠ "admin"%string → bidding_authority_user_id team = Some d → d ≠ 0 →
       hasBiddingAuthority team userId userRole = true ↔ userId = d)
  ∧ (∀ userId userRole,
       userRole ≠ "admin"%string → truthy (bidding_authority_user_id team) = false →
       hasBiddingAuthority team userId userRole = true ↔ owner_id team = Some userId)
  ∧ (∀ resp w',
       authority_route u (Some tid) (Some del) w = (resp, w') →
       if is_error resp then w' = w
       else (captain_id team = Some del ∨ core_member w tid del)
            ∧ get_team w' tid = Some (with_authority (Some del) team))
  ∧ (¬ (captain_id team = Some del ∨ core_member w tid del) →
     is_error (fst (authority_route u (Some tid) (Some del) w)) = true)
  ∧ (isAdmin u = true ∨ owner_id team = Some (uid u) →
     is_Some (users (db w) !! del) →
     captain_id team = Some del ∨ core_member w tid del →
     is_error (fst (authority_route u (Some tid) (Some del) w)) = false)
  ∧ (isAdmin u = true ∨ owner_id team = Some (uid u) →
     ∀ route,
       route = revoke_route u tid w ∨ route = authority_route u (Some tid) None w →
       is_error (fst route) = false
       ∧ get_team (snd route) tid = Some (with_authority None team)
       ∧ ∀ userId userRole,
           userRole ≠ "admin"%string →
           hasBiddingAuthority (with_authority None team) userId userRole = true
           ↔ owner_id team = Some userId).
Proof.
  intros Hteam Htid Hdel.
  assert (Ht : truthy (Some tid) = true).
  { simpl. by destruct (Z.eqb_spec tid 0). }
  assert (Hd : truthy (Some del) = true).
  { simpl. by destruct (Z.eqb_spec del 0). }
  split; [done|].
  split; [intros; by apply delegate_authority|].
  split; [intros; by apply owner_authority|].
  split.
  { intros resp w' Hroute. unfold authority_route in Hroute.
    rewrite Ht, Hd in Hroute. simpl in Hroute. rewrite Hteam in Hroute.
    handler_cases Hroute; injection Hroute as <- <-; simpl; try done.
    split; [|by apply get_team_alter].
    match goal with
    | H : negb (bool_decide (captain_id _ = _)) && _ = false |- _ =>
      apply andb_false_iff in H as [Hc|Hc]; apply negb_false_iff in Hc
    end.
    - left. by apply bool_decide_eq_true_1 in Hc.
    - right. by apply isCorePlayer_spec. }
  split.
  { intros Hnot. unfold authority_route.
    rewrite Ht, Hd. simpl. rewrite Hteam.
    destruct (negb (isAdmin u) && _); [done|].
    destruct (users (db w) !! del); [|done].
    rewrite bool_decide_eq_false_2 by tauto.
    destruct (isCorePlayer w tid del) eqn:Hcore; [|done].
    apply isCorePlayer_spec in Hcore. tauto. }
  split.
  { intros Hwho [user Huser] Hmember. unfold authority_route.
    rewrite Ht, Hd. simpl. rewrite Hteam, Huser.
    replace (negb (isAdmin u) && negb (bool_decide (owner_id team = Some (uid u))))
      with false.
    2: { destruct Hwho as [->| ->%(bool_decide_eq_true_2 _)]; [done|].
         by rewrite andb_false_r. }
    replace (negb (bool_decide (captain_id team = Some del))
             && negb (isCorePlayer w tid del)) with false; [done|].
    destruct Hmember as [->%(bool_decide_eq_true_2 _)| ->%isCorePlayer_spec];
      [done|by rewrite andb_false_r]. }
  intros Hwho route Hroute.
  assert (Hgate :
    negb (isAdmin u) && negb (bool_decide (owner_id team = Some (uid u))) = false).
  { destruct Hwho as [->| ->%(bool_decide_eq_true_2 _)]; [done|].
    by rewrite andb_false_r. }
  assert (Hroute' : is_error (fst route) = false
    ∧ get_team (snd route) tid = Some (with_authority None team)).
  { destruct Hroute as [-> | ->].
    - unfold revoke_route. rewrite Hteam, Hgate. simpl.
      split; [done|]. by apply get_team_alter.
    - unfold authority_route. rewrite Ht. simpl. rewrite Hteam, Hgate. simpl.
      split; [done|]. by apply get_team_alter. }
  destruct Hroute' as (Hok & Hget).
  split; [done|]. split; [done|].
  intros userId userRole Hrole.
  by apply (owner_authority (with_authority None team)).
Qed.

Lemma C8_bidding_authority_witness :
  hasBiddingAuthority
    (with_authority (Some 11) (mkTeam "Aces" (Some 10) (Some 11) 10000000 None))
    11 "captain" = true
  ∧ is_error (fst (authority_route Demo.owner1 (Some 1) (Some 11) Demo.demo_world))
    = false
  ∧ is_error (fst (authority_route Demo.owner1 (Some 1) (Some 40) Demo.demo_world))
    = true.
Proof.
  assert (Hteam : get_team Demo.demo_world 1
                  = Some (mkTeam "Aces" (Some 10) (Some 11) 10000000 None))
    by reflexivity.
  split; [reflexivity|].
  split.
  - destruct (C8_bidding_authority Demo.demo_world Demo.owner1 1 11 _ Hteam)
      as (_ & _ & _ & _ & _ & Hacc & _); [lia|lia|].
    apply Hacc; [right; reflexivity|by eexists|left; reflexivity].
  - destruct (C8_bidding_authority Demo.demo_world Demo.owner1 1 40 _ Hteam)
      as (_ & _ & _ & _ & Hrej & _); [lia|lia|].
    apply Hrej. intros [Hcap|(row & p & Hin & _ & _ & Hlk & Hp)].
    + discriminate Hcap.
    + apply list_elem_of_In in Hin. simpl in Hin.
      destruct Hin as [<-|[]]. vm_compute in Hlk. injection Hlk as <-.
      discriminate Hp.
Defined.

(** ** Relations kept by the drain loop

    A relation between the world before and after that is reflexive,
    transitive, and kept by the elementary updates of the bid queue code
    is kept by the whole drain loop, by [processBidQueue] and by
    [startBiddingPhase]. *)

Section DrainFrame.
Variable R : World → World → Prop.
Hypothesis R_refl : ∀ w, R w w.
Hypothesis R_trans : ∀ w1 w2 w3, R w1 w2 → R w2 w3 → R w1 w3.
Hypothesis R_bidQueue : ∀ q w, R w (set_bidQueue q w).
Hypothesis R_isProcessingBids : ∀ b w, R w (set_isProcessingBids b w).
Hypothesis R_lastBidTime : ∀ t w, R w (set_lastBidTime t w).
Hypothesis R_drain_timers : ∀ l w, R w (set_drain_timers l w).
Hypothesis R_currentPhase : ∀ p w, R w (set_currentPhase p w).
Hypothesis R_timer_end : ∀ t w, R w (set_state (with_timer_end t) w).
Hypothesis R_emit_bidding : ∀ t w, R w (emit (EvBiddingStarted t) w).
Hypothesis R_executeBid : ∀ bid w, R w (snd (executeBid bid w)).

Lemma frame_processBidQueue_with (loop : World → World) :
  (∀ w, R w (loop w)) → ∀ w, R w (processBidQueue_with loop w).
Proof.
  intros Hloop w. unfold processBidQueue_with.
  destruct (_ || _); [apply R_refl|].
  eapply R_trans; [apply R_isProcessingBids|apply Hloop].
Qed.

Lemma frame_checkAutoBids_with (loop : World → World) :
  (∀ w, R w (loop w)) → ∀ x w, R w (checkAutoBids_with loop x w).
Proof.
  intros Hloop x w. unfold checkAutoBids_with.
  destruct (_ || _); [apply R_refl|].
  destruct (_ && _).
  - eapply R_trans; [apply R_bidQueue|by apply frame_processBidQueue_with].
  - apply R_bidQueue.
Qed.

Lemma frame_drain_iter (loop : World → World) :
  (∀ w, R w (loop w)) → ∀ w, R w (drain_iter loop w).
Proof.
  intros Hloop w. unfold drain_iter.
  destruct (bidQueue (eng w)) as [|bid rest]; [apply Hloop|].
  eapply R_trans; [apply R_bidQueue|].
  eapply R_trans; [apply R_executeBid|].
  eapply R_trans; [apply R_lastBidTime|].
  eapply R_trans; [by apply frame_checkAutoBids_with|apply Hloop].
Qed.

Lemma frame_drain_loop (n : nat) (w : World) : R w (drain_loop n w).
Proof.
  revert w. induction n as [|n IH]; intros w; simpl; [apply R_refl|].
  destruct (_ =? _)%nat; [apply R_isProcessingBids|].
  destruct (_ <? _); [apply R_drain_timers|].
  by apply frame_drain_iter.
Qed.

Lemma frame_processBidQueue (w : World) : R w (processBidQueue w).
Proof. apply frame_processBidQueue_with, frame_drain_loop. Qed.

Lemma frame_drain_resume (w : World) : R w (drain_resume w).
Proof. apply frame_drain_iter, frame_drain_loop. Qed.

Lemma frame_triggerInitialAutoBids (st : AuctionState) (w : World) :
  R w (triggerInitialAutoBids st w).
Proof.
  unfold triggerInitialAutoBids.
  destruct (stable_sort _ _) as [|[team_id settings] _]; [apply R_refl|].
  destruct (get_team w team_id); [|apply R_refl].
  destruct (_ <=? _); [|apply R_refl].
  eapply R_trans; [apply R_bidQueue|apply frame_processBidQueue].
Qed.

Lemma frame_startBiddingPhase (w : World) : R w (startBiddingPhase w).
Proof.
  unfold startBiddingPhase.
  assert (Hpre : R w
    (emit (EvBiddingStarted (now (set_currentPhase "bidding" w) + 30 * 1000))
       (set_state
          (with_timer_end
             (Some (now (set_currentPhase "bidding" w) + 30 * 1000)))
          (set_currentPhase "bidding" w)))).
  { eapply R_trans; [apply R_currentPhase|].
    eapply R_trans; [apply R_timer_end|apply R_emit_bidding]. }
  destruct (truthy _); [|exact Hpre].
  eapply R_trans; [exact Hpre|apply frame_triggerInitialAutoBids].
Qed.
End DrainFrame.

(** ** The setup timer

    Every live setup timer is the one whose handle [phaseTimer] holds:
    the handlers clear the old handle before they arm a new one. *)

Definition timer_owned (w : World) : Prop :=
  ∀ p, p ∈ phase_timers (rt w) → phaseTimer (eng w) = Some p.1.

Definition same_timers (w w' : World) : Prop :=
  phase_timers (rt w') = phase_timers (rt w)
  ∧ phaseTimer (eng w') = phaseTimer (eng w).

Lemma same_timers_refl (w : World) : same_timers w w.
Proof. done. Qed.

Lemma same_timers_trans (w1 w2 w3 : World) :
  same_timers w1 w2 → same_timers w2 w3 → same_timers w1 w3.
Proof. intros [? ?] [? ?]. split; congruence. Qed.

Lemma same_timers_executeBid (bid : PendingBid) (w : World) :
  same_timers w (snd (executeBid bid w)).
Proof. unfold executeBid. repeat case_match; done. Qed.

Lemma same_timers_processBidQueue (w : World) :
  same_timers w (processBidQueue w).
Proof.
  apply frame_processBidQueue;
    eauto using same_timers_refl, same_timers_trans, same_timers_executeBid;
    done.
Qed.

Lemma same_timers_drain_resume (w : World) : same_timers w (drain_resume w).
Proof.
  apply frame_drain_resume;
    eauto using same_timers_refl, same_timers_trans, same_timers_executeBid;
    done.
Qed.

Lemma same_timers_startBiddingPhase (w : World) :
  same_timers w (startBiddingPhase w).
Proof.
  apply frame_startBiddingPhase;
    eauto using same_timers_refl, same_timers_trans, same_timers_executeBid;
    done.
Qed.

Lemma timer_owned_same (w w' : World) :
  same_timers w w' → timer_owned w → timer_owned w'.
Proof. intros [Ht Hp] Hown p. rewrite Ht, Hp. apply Hown. Qed.

Lemma filter_none {A} (P : A → Prop) `{∀ x, Decision (P x)} (l : list A) :
  (∀ x, x ∈ l → ¬ P x) → filter P l = [].
Proof.
  induction l as [|x l IH]; intros Hall; [done|].
  rewrite filter_cons_False by (apply Hall; left).
  apply IH. intros y Hy. apply Hall. by right.
Qed.

Lemma timer_owned_cancel (w : World) :
  timer_owned w →
  phase_timers (rt (cancel_phaseTimer w)) = []
  ∧ phaseTimer (eng (cancel_phaseTimer w)) = None.
Proof.
  intros Hown. unfold cancel_phaseTimer.
  destruct (phaseTimer (eng w)) as [h|] eqn:Hh; simpl.
  - split; [|done]. apply filter_none.
    intros p Hp Hne. apply Hne. apply Hown in Hp. congruence.
  - split; [|done].
    destruct (phase_timers (rt w)) as [|p l] eqn:Hl; [done|].
    specialize (Hown p). rewrite Hl in Hown.
    assert (None = Some p.1) by (rewrite <- Hh; apply Hown; left). done.
Qed.

Lemma timer_owned_nil (w : World) : phase_timers (rt w) = [] → timer_owned w.
Proof. intros H p. rewrite H. by intros ?%elem_of_nil. Qed.

Lemma cancel_phaseTimer_eng_db (w : World) :
  db (cancel_phaseTimer w) = db w
  ∧ bidQueue (eng (cancel_phaseTimer w)) = bidQueue (eng w)
  ∧ currentPhase (eng (cancel_phaseTimer w)) = currentPhase (eng w)
  ∧ isProcessingBids (eng (cancel_phaseTimer w)) = isProcessingBids (eng w)
  ∧ lastBidTime (eng (cancel_phaseTimer w)) = lastBidTime (eng w)
  ∧ autoBidSettings (eng (cancel_phaseTimer w)) = autoBidSettings (eng w)
  ∧ setupPhaseDuration (eng (cancel_phaseTimer w)) = setupPhaseDuration (eng w)
  ∧ drain_timers (rt (cancel_phaseTimer w)) = drain_timers (rt w)
  ∧ emitted (rt (cancel_phaseTimer w)) = emitted (rt w)
  ∧ clock (rt (cancel_phaseTimer w)) = clock (rt w).
Proof. unfold cancel_phaseTimer. by destruct (phaseTimer (eng w)). Qed.

Arguments cancel_phaseTimer : simpl never.
Arguments processBidQueue : simpl never.
Arguments drain_resume : simpl never.
Arguments startBiddingPhase : simpl never.
Arguments executeBid : simpl never.

Ltac same_timers_route :=
  repeat case_match; simpl;
  first
    [ done
    | eapply same_timers_trans; [|apply same_timers_processBidQueue]; done ].

Lemma timer_owned_handle (a : Action) (w : World) :
  timer_owned w → timer_owned (snd (handle a w)).
Proof.
  intros Hown.
  assert (Hcancel : ∀ w', same_timers w w' →
    phase_timers (rt (cancel_phaseTimer w')) = []
    ∧ phaseTimer (eng (cancel_phaseTimer w')) = None).
  { intros w' Hsame. apply timer_owned_cancel. by eapply timer_owned_same. }
  destruct a; simpl.
  - eapply timer_owned_same; [|done]. unfold start_route. same_timers_route.
  - unfold next_player_route. repeat case_match; simpl; try done.
    destruct (Hcancel (set_autoBidSettings [] (set_bidQueue [] w))) as [Hnil _];
      [done|].
    intros q. simpl. rewrite Hnil. simpl.
    by intros ->%list_elem_of_singleton.
  - eapply timer_owned_same; [|done]. unfold bid_route. same_timers_route.
  - eapply timer_owned_same; [|done]. unfold auto_bid_route. same_timers_route.
  - unfold sold_route, reset_block. repeat case_match; simpl; try done;
      apply timer_owned_nil; simpl; by apply Hcancel.
  - unfold unsold_route, reset_block. repeat case_match; simpl; try done;
      apply timer_owned_nil; simpl; by apply Hcancel.
  - eapply timer_owned_same; [|done]. unfold end_route. same_timers_route.
  - eapply timer_owned_same; [|done]. unfold authority_route. same_timers_route.
  - eapply timer_owned_same; [|done]. unfold revoke_route. same_timers_route.
  - eapply timer_owned_same; [|done]. unfold manual_bid_route. same_timers_route.
  - unfold skip_to_bidding_route. repeat case_match; simpl; try done.
    eapply timer_owned_same; [apply same_timers_startBiddingPhase|].
    apply timer_owned_nil. by apply Hcancel.
  - eapply timer_owned_same; [|done]. unfold extend_timer_route. same_timers_route.
  - unfold pause_route. repeat case_match; simpl; try done.
    apply timer_owned_nil; simpl; by apply Hcancel.
  - eapply timer_owned_same; [|done]. unfold set_setup_duration_route.
    same_timers_route.
  - eapply timer_owned_same; [|done]. unfold resume_route. same_timers_route.
  - eapply timer_owned_same; [|done]. unfold draft_start_route. same_timers_route.
  - eapply timer_owned_same; [|done]. unfold draft_pick_route. same_timers_route.
  - eapply timer_owned_same; [|done]. unfold draft_set_timer_route.
    same_timers_route.
  - eapply timer_owned_same; [|done]. unfold draft_end_route. same_timers_route.
  - unfold fire_phaseTimer. repeat case_match; simpl; try done.
    eapply timer_owned_same; [apply same_timers_startBiddingPhase|].
    intros q. simpl. intros [_ Hq]%list_elem_of_filter. by apply Hown.
  - unfold fire_drainTimer. repeat case_match; simpl; try done.
    eapply timer_owned_same; [|done].
    eapply same_timers_trans; [|apply same_timers_drain_resume]. done.
  - case_match; done.
Qed.

Lemma timer_owned_run (evs : list Event) (w : World) :
  timer_owned w → timer_owned (run evs w).
Proof.
  revert w. induction evs as [|e evs IH]; intros w Hown; [done|].
  simpl. apply IH. unfold step. by apply timer_owned_handle.
Qed.

Lemma timer_owned_reachable (w : World) : reachable w → timer_owned w.
Proof.
  intros (d & t0 & evs & ->). apply timer_owned_run.
  by apply timer_owned_nil.
Qed.

(** ** Sold and unsold without a player on the block *)

(** What the first statements of /sold and /unsold leave behind. *)
Definition block_reset (w w' : World) : Prop :=
  bidQueue (eng w') = []
  ∧ currentPhase (eng w') = "idle"%string
  ∧ phaseTimer (eng w') = None
  ∧ (∀ h, phaseTimer (eng w) = Some h → h ∉ (phase_timers (rt w')).*1)
  ∧ (timer_owned w → phase_timers (rt w') = [])
  ∧ db w' = db w
  ∧ autoBidSettings (eng w') = autoBidSettings (eng w)
  ∧ emitted (rt w') = emitted (rt w).

Lemma cancel_phaseTimer_None (w : World) :
  phaseTimer (eng (cancel_phaseTimer w)) = None.
Proof.
  unfold cancel_phaseTimer. by destruct (phaseTimer (eng w)) eqn:E; simpl.
Qed.

Lemma reset_block_spec (w : World) : block_reset w (reset_block w).
Proof.
  unfold block_reset, reset_block.
  set (w1 := set_currentPhase "idle" (set_bidQueue [] w)).
  destruct (cancel_phaseTimer_eng_db w1)
    as (Hdb & Hq & Hph & _ & _ & Hab & _ & _ & Hem & _).
  split; [by rewrite Hq|]. split; [by rewrite Hph|].
  split; [|split; [|split; [|by rewrite Hdb, Hab, Hem]]].
  - apply cancel_phaseTimer_None.
  - intros h Hh. unfold cancel_phaseTimer.
    change (phaseTimer (eng w1)) with (phaseTimer (eng w)). rewrite Hh. simpl.
    intros ([h' due] & -> & [Hne _]%list_elem_of_filter)%list_elem_of_fmap.
    by apply Hne.
  - intros Hown. by apply timer_owned_cancel.
Qed.

Lemma sold_rejects (w : World) (u : AuthUser) :
  isAdmin u = true →
  truthy (current_player_id (state w)) = false
  ∨ truthy (current_bidder_team_id (state w)) = false →
  sold_route u w = (RespErr 400 "No active bid to complete", reset_block w).
Proof.
  intros Hadmin Hnone.
  assert (Hst : state (reset_block w) = state w).
  { unfold state. f_equal. apply reset_block_spec. }
  unfold sold_route. rewrite Hadmin. simpl. rewrite Hst.
  by destruct Hnone as [-> | ->]; [|rewrite orb_true_r].
Qed.

Lemma unsold_rejects (w : World) (u : AuthUser) :
  isAdmin u = true →
  truthy (current_player_id (state w)) = false →
  unsold_route u w = (RespErr 400 "No player being auctioned", reset_block w).
Proof.
  intros Hadmin Hnone.
  assert (Hst : state (reset_block w) = state w).
  { unfold state. f_equal. apply reset_block_spec. }
  unfold unsold_route. rewrite Hadmin. simpl. by rewrite Hst, Hnone.
Qed.

(** C10. An admin's sold() with no player on the block or no current
    bidder, and an admin's unsold() with no player on the block, are
    answered with a 400 error; yet the bid queue is then empty, the phase
    is 'idle', the setup timer handle is cleared and its timer is no
    longer live (no setup timer at all is live when the world was
    reachable), while the database is as before. The module state is
    therefore changed on this error path whenever the queue was not
    empty. *)
Theorem C10_reject_after_reset (w : World) (u : AuthUser) :
  isAdmin u = true →
  (truthy (current_player_id (state w)) = false
   ∨ truthy (current_bidder_team_id (state w)) = false →
   ∃ w', sold_route u w = (RespErr 400 "No active bid to complete", w')
         ∧ block_reset w w'
         ∧ (bidQueue (eng w) ≠ [] → eng w' ≠ eng w))
  ∧ (truthy (current_player_id (state w)) = false →
     ∃ w', unsold_route u w = (RespErr 400 "No player being auctioned", w')
           ∧ block_reset w w'
           ∧ (bidQueue (eng w) ≠ [] → eng w' ≠ eng w))
  ∧ (reachable w →
     phase_timers (rt (snd (sold_route u w))) = []
     ∧ phase_timers (rt (snd (unsold_route u w))) = []).
Proof.
  intros Hadmin.
  pose proof (reset_block_spec w) as Hreset.
  assert (Hchanged : bidQueue (eng w) ≠ [] → eng (reset_block w) ≠ eng w).
  { intros Hq Heq. apply Hq. rewrite <- Heq. apply Hreset. }
  split; [|split].
  - intros Hnone. exists (reset_block w). split; [|done].
    by apply sold_rejects.
  - intros Hnone. exists (reset_block w). split; [|done].
    by apply unsold_rejects.
  - intros Hreach%timer_owned_reachable.
    destruct Hreset as (_ & _ & _ & _ & Hnil & _). specialize (Hnil Hreach).
    split.
    + unfold sold_route. rewrite Hadmin. simpl. repeat case_match; simpl; done.
    + unfold unsold_route. rewrite Hadmin. simpl. repeat case_match; simpl; done.
Qed.

Lemma C10_reject_after_reset_witness :
  let w :=
    run [mkEvent 0 (AStart Demo.admin None);
         mkEvent 0 (ANextPlayer Demo.admin (Some 7))] Demo.demo_world in
  phaseTimer (eng w) = Some O
  ∧ currentPhase (eng w) = "setup"%string
  ∧ (∃ w', sold_route Demo.admin w = (RespErr 400 "No active bid to complete", w')
           ∧ block_reset w w').
Proof.
  intros w. split; [reflexivity|]. split; [reflexivity|].
  destruct (C10_reject_after_reset w Demo.admin eq_refl) as (Hsold & _ & _).
  destruct Hsold as (w' & Hroute & Hreset & _); [right; reflexivity|].
  by exists w'.
Defined.

(** ** The sold path *)

Arguments reset_block : simpl never.

Lemma insert_roster_fresh (row : RosterRow) (t : list RosterRow) :
  (∀ r, r ∈ t →
     ¬ (r_team_id r = r_team_id row ∧ r_player_id r = r_player_id row
        ∧ r_season r = r_season row)) →
  insert_roster row t = Some (t ++ [row]).
Proof.
  intros Hfresh. unfold insert_roster.
  destruct (existsb (same_roster_key row) t) eqn:Hex; [|done].
  apply existsb_exists in Hex as (r & Hin%list_elem_of_In & Hkey).
  unfold same_roster_key in Hkey.
  apply andb_prop in Hkey as [Hkey Hs]. apply andb_prop in Hkey as [Ht Hp].
  apply Z.eqb_eq in Ht, Hp, Hs.
  by destruct (Hfresh r Hin).
Qed.

Lemma mark_winning_lookup (pid tid bid ssn : Z) (log : list AuctionLogRow)
    (i : nat) (row : AuctionLogRow) :
  log !! i = Some row →
  map (mark_winning pid tid bid ssn) log !! i =
    Some (if matches_bid pid tid bid ssn row
          then mkAuctionLogRow (l_player_id row) (l_team_id row)
                 (l_bid_amount row) (l_bid_increment row) (l_is_auto_bid row)
                 true (l_season row)
          else row).
Proof.
  intros Hrow. change (map ?f ?l) with (f <$> l).
  rewrite list_lookup_fmap, Hrow. done.
Qed.

Lemma insert_roster_duplicate (row : RosterRow) (t : list RosterRow) :
  (∃ r, r ∈ t ∧ r_team_id r = r_team_id row ∧ r_player_id r = r_player_id row
        ∧ r_season r = r_season row) →
  insert_roster row t = None.
Proof.
  intros (r & Hin & Ht & Hp & Hs). unfold insert_roster.
  destruct (existsb (same_roster_key row) t) eqn:Hex; [done|].
  assert (Htrue : existsb (same_roster_key row) t = true); [|congruence].
  apply existsb_exists. exists r. split; [by apply list_elem_of_In|].
  unfold same_roster_key. rewrite Ht, Hp, Hs, !Z.eqb_refl. done.
Qed.

(** The claim as worded: whenever an admin calls sold() while a player
    is on the block with a current bid and a current bidder, the bidder's
    budget has gone down by the bid, the player is unavailable, the roster
    has a row for team, player and season, the matching log rows are
    flagged as winning, and the block is cleared. *)
Definition sold_always_commits : Prop :=
  ∀ w u P T B team player,
    reachable w → isAdmin u = true →
    current_player_id (state w) = Some P → P ≠ 0 →
    current_bidder_team_id (state w) = Some T → T ≠ 0 →
    current_bid (state w) = B →
    get_team w T = Some team →
    players (db w) !! P = Some player →
    let w' := snd (sold_route u w) in
    budget_remaining <$> get_team w' T = Some (budget_remaining team - B)
    ∧ is_available <$> players (db w') !! P = Some false
    ∧ (∃ r, r ∈ team_roster (db w') ∧ r_team_id r = T ∧ r_player_id r = P
            ∧ r_season r = season (state w))
    ∧ (∀ row, row ∈ auction_log (db w') →
         matches_bid P T B (season (state w)) row = true →
         l_is_winning_bid row = true)
    ∧ current_player_id (state w') = None
    ∧ current_bid (state w') = 0
    ∧ current_bidder_team_id (state w') = None
    ∧ timer_end (state w') = None.

(** Player 7 is on the block and team 1 holds the bid of 150000 when the
    owner of team 1 adds player 7 to the team's roster through
    POST /teams/1/roster (teams.js, lines 218-266, with the default price
    0 and season 1): the roster gets the row (1, 7, 'auction', 0, 1), the
    player is marked unavailable and no budget changes. *)
Definition duplicate_row_trace : list Event :=
  [mkEvent 0 (AStart Demo.admin None);
   mkEvent 0 (ANextPlayer Demo.admin (Some 7));
   mkEvent 1000 (ASkipToBidding Demo.admin);
   mkEvent 10 (ABid Demo.owner1 (Some 1) (Some 150000) None);
   mkEvent 100
     (XTables Demo.demo_teams Demo.demo_users
        (<[7 := mkPlayer (Some 30) 100000 false]> Demo.demo_players)
        (Demo.demo_roster ++ [mkRosterRow 1 7 AcqAuction 0 1]))].

(** The admin's sold() then runs into the UNIQUE(team_id, player_id,
    season) constraint at its INSERT: it answers 500, team 1 still has
    its full budget of 10000000, the log row is not flagged and player 7
    is still on the block. *)
Lemma C6_roster_row_counterexample : ¬ sold_always_commits.
Proof.
  intros Hclaim.
  pose (w := run duplicate_row_trace Demo.demo_world).
  assert (Hreach : reachable w) by (by eexists _, _, _).
  destruct (Hclaim w Demo.admin 7 1 150000
              (mkTeam "Aces" (Some 10) (Some 11) 10000000 None)
              (mkPlayer (Some 30) 100000 false)
              Hreach eq_refl eq_refl ltac:(lia) eq_refl ltac:(lia) eq_refl
              eq_refl eq_refl)
    as (Hbudget & _).
  vm_compute in Hbudget. discriminate Hbudget.
Qed.

(** The same refusal is reached through the auction and draft routes
    alone: in draft mode the admin puts player 7 on the block and places a
    manual bid for team 1 (neither route looks at the mode), team 1, which
    is on the clock, drafts player 7, and the admin's sold() is answered
    with 500 while team 1 keeps its full budget and player 7 stays on the
    block. *)
Lemma sold_after_draft_pick_refused :
  let w :=
    run [mkEvent 0 (ADraftStart Demo.admin None (Some [1; 2]));
         mkEvent 0 (ANextPlayer Demo.admin (Some 7));
         mkEvent 10 (AManualBid Demo.admin (Some 1) (Some 150000));
         mkEvent 10 (ADraftPick Demo.owner1 (Some 7))] Demo.demo_world in
  team_roster (db w) = Demo.demo_roster ++ [mkRosterRow 1 7 AcqDraft 0 1]
  ∧ current_player_id (state w) = Some 7
  ∧ current_bidder_team_id (state w) = Some 1
  ∧ current_bid (state w) = 150000
  ∧ fst (sold_route Demo.admin w) = internal_error
  ∧ budget_remaining <$> get_team (snd (sold_route Demo.admin w)) 1
    = Some 10000000
  ∧ current_player_id (state (snd (sold_route Demo.admin w))) = Some 7.
Proof. intros w. split_and!; reflexivity. Qed.

(** C6 (with the roster precondition). An admin calls sold() with player
    P on the block, current bid B and current bidder T, both rows
    existing. If T has no roster row for P in this season yet, the call
    succeeds and afterwards: T's remaining budget is its old budget minus
    B and no other team changed; P is unavailable; the roster ends with
    the row (T, P, 'auction', B, season); every log row for (P, T, B,
    season) is flagged as the winning bid and the other rows are as
    before; the current player, bid, bidder and timer of the auction
    state are cleared; and a second sold() on the result is rejected with
    a 400 error. If T already has a roster row for P in this season, the
    INSERT is refused by the table's UNIQUE constraint: the call is
    answered with a 500 error and the database is as before (no debit, no
    roster row, no flag, the player still on the block), while the queue
    has been emptied and the phase set to 'idle'. *)
Theorem C6_sold_commits (w : World) (u : AuthUser) (P T B : Z)
    (team : Team) (player : Player) :
  isAdmin u = true →
  current_player_id (state w) = Some P → P ≠ 0 →
  current_bidder_team_id (state w) = Some T → T ≠ 0 →
  current_bid (state w) = B →
  get_team w T = Some team →
  players (db w) !! P = Some player →
  ((∀ r, r ∈ team_roster (db w) →
      ¬ (r_team_id r = T ∧ r_player_id r = P ∧ r_season r = season (state w))) →
   ∃ w',
    sold_route u w = (RespOk "Player sold", w')
    ∧ get_team w' T = Some (debit B team)
    ∧ budget_remaining (debit B team) = budget_remaining team - B
    ∧ (∀ t, t ≠ T → get_team w' t = get_team w t)
    ∧ players (db w') !! P = Some (make_unavailable player)
    ∧ is_available (make_unavailable player) = false
    ∧ team_roster (db w') =
        team_roster (db w) ++ [mkRosterRow T P AcqAuction B (season (state w))]
    ∧ (∀ i row, auction_log (db w) !! i = Some row →
         ∃ row', auction_log (db w') !! i = Some row'
           ∧ if (l_player_id row =? P) && (l_team_id row =? T)
                && (l_bid_amount row =? B) && (l_season row =? season (state w))
             then l_is_winning_bid row' = true
             else row' = row)
    ∧ length (auction_log (db w')) = length (auction_log (db w))
    ∧ current_player_id (state w') = None
    ∧ current_bid (state w') = 0
    ∧ current_bidder_team_id (state w') = None
    ∧ timer_end (state w') = None
    ∧ bidQueue (eng w') = []
    ∧ autoBidSettings (eng w') = []
    ∧ currentPhase (eng w') = "idle"%string
    ∧ ∃ w'', sold_route u w' = (RespErr 400 "No active bid to complete", w''))
  ∧ ((∃ r, r ∈ team_roster (db w) ∧ r_team_id r = T ∧ r_player_id r = P
           ∧ r_season r = season (state w)) →
     ∃ w',
      sold_route u w = (RespErr 500 "Internal server error", w')
      ∧ db w' = db w
      ∧ bidQueue (eng w') = []
      ∧ currentPhase (eng w') = "idle"%string).
Proof.
  intros Hadmin HP HPnz HT HTnz HB Hteam Hplayer.
  destruct (reset_block_spec w) as (Hq & Hph & _ & _ & _ & Hdb & _ & _).
  assert (Hst : state (reset_block w) = state w) by (unfold state; by rewrite Hdb).
  split.
  - intros Hfresh.
    assert (Hins :
      insert_roster (mkRosterRow T P AcqAuction B (season (state w)))
        (team_roster (db w)) =
      Some (team_roster (db w)
              ++ [mkRosterRow T P AcqAuction B (season (state w))])).
    { by apply insert_roster_fresh. }
    eexists. split.
    { unfold sold_route. rewrite Hadmin. simpl. rewrite Hst, HP, HT, HB. simpl.
      destruct (Z.eqb_spec P 0) as [?|_]; [done|].
      destruct (Z.eqb_spec T 0) as [?|_]; [done|].
      simpl. rewrite Hdb, Hins. reflexivity. }
    unfold get_team in *. simpl. rewrite ?Hdb.
    split. { rewrite lookup_alter, decide_True by done. by rewrite Hteam. }
    split; [done|].
    split. { intros t Ht. by rewrite lookup_alter, decide_False. }
    split. { rewrite lookup_alter, decide_True by done. by rewrite Hplayer. }
    split; [done|]. split; [done|].
    split.
    { intros i row Hrow. eexists. split; [by apply mark_winning_lookup|].
      unfold matches_bid. by destruct (_ && _). }
    split. { by rewrite length_map. }
    do 4 (split; [done|]).
    split; [done|]. split; [done|]. split; [done|].
    eexists. apply sold_rejects; [done|]. by left.
  - intros Hdup.
    assert (Hins :
      insert_roster (mkRosterRow T P AcqAuction B (season (state w)))
        (team_roster (db w)) = None).
    { by apply insert_roster_duplicate. }
    exists (reset_block w). split; [|done].
    unfold sold_route. rewrite Hadmin. simpl. rewrite Hst, HP, HT, HB. simpl.
    destruct (Z.eqb_spec P 0) as [?|_]; [done|].
    destruct (Z.eqb_spec T 0) as [?|_]; [done|].
    simpl. rewrite Hdb, Hins. reflexivity.
Qed.

Lemma C6_sold_commits_witness :
  let w :=
    run [mkEvent 10 (ABid Demo.owner1 (Some 1) (Some 150000) None)]
      Demo.bidding_world in
  current_bid (state w) = 150000
  ∧ ∃ w', sold_route Demo.admin w = (RespOk "Player sold", w')
          ∧ budget_remaining <$> get_team w' 1 = Some 9850000.
Proof.
  intros w. split; [reflexivity|].
  assert (Hroster : team_roster (db w) = Demo.demo_roster) by reflexivity.
  destruct (C6_sold_commits w Demo.admin 7 1 150000
              (mkTeam "Aces" (Some 10) (Some 11) 10000000 None)
              (mkPlayer (Some 30) 100000 true))
    as (Hcommit & _);
    [reflexivity|reflexivity|lia|reflexivity|lia|reflexivity|reflexivity
    |reflexivity|].
  destruct Hcommit as (w' & Hroute & Hteam & _).
  - intros r Hin (_ & Hp & _). rewrite Hroster in Hin.
    apply list_elem_of_singleton in Hin. subst r. discriminate Hp.
  - exists w'. split; [exact Hroute|]. rewrite Hteam. reflexivity.
Defined.

(** ** Manual bids and the setup phase *)

(** C7. While the phase is 'setup', every request to the queued bid
    endpoint is answered with an error and leaves the world (queue,
    auction state, log, events) as it was; when the request is complete,
    the mode is 'auction' and a player is on the block, the error is the
    setup-phase one. Once the phase is 'bidding', the same request is
    accepted when the team exists, the submitter has bidding authority,
    the amount exceeds the current bid and is within the team's budget:
    the entry is appended at the tail of the queue, the queueing is
    announced, and the drainer is started on that queue. *)
Theorem C7_setup_rejects_manual_bid (w : World) (u : AuthUser)
    (team_id amount_arg increment_arg : option Z) :
  currentPhase (eng w) = "setup"%string →
  (∃ status error,
     bid_route u team_id amount_arg increment_arg w = (RespErr status error, w))
  ∧ (truthy team_id = true → truthy amount_arg = true →
     is_auction (mode (state w)) = true →
     truthy (current_player_id (state w)) = true →
     bid_route u team_id amount_arg increment_arg w =
       (RespErr 400 "Still in setup phase - set your auto-bid target instead", w))
  ∧ (∀ w2 tid amt team,
       team_id = Some tid → tid ≠ 0 → amount_arg = Some amt → amt ≠ 0 →
       currentPhase (eng w2) = "bidding"%string →
       is_auction (mode (state w2)) = true →
       truthy (current_player_id (state w2)) = true →
       get_team w2 tid = Some team →
       hasBiddingAuthority team (uid u) (role u) = true →
       current_bid (state w2) < amt →
       amt ≤ budget_remaining team →
       let entry :=
         mkBid tid amt (js_or increment_arg (amt - current_bid (state w2))) false in
       let queued :=
         emit (EvBidQueued tid amt (length (bidQueue (eng w2) ++ [entry])))
           (set_bidQueue (bidQueue (eng w2) ++ [entry]) w2) in
       bidQueue (eng queued) = bidQueue (eng w2) ++ [entry]
       ∧ db queued = db w2
       ∧ bid_route u team_id amount_arg increment_arg w2 =
           (RespBidQueued (queue_length_after_call queued) amt,
            processBidQueue queued)).
Proof.
  intros Hsetup. split; [|split].
  - unfold bid_route. rewrite Hsetup.
    change (String.eqb "setup" "setup") with true.
    repeat case_match; eauto.
  - intros Ht Ha Hmode Hplayer. unfold bid_route.
    by rewrite Ht, Ha, Hmode, Hplayer, Hsetup.
  - intros w2 tid amt team -> Htid -> Hamt Hphase Hmode Hplayer Hteam Hauth
      Hbid Hbudget entry queued.
    split; [done|]. split; [done|].
    unfold bid_route. simpl.
    destruct (Z.eqb_spec tid 0) as [?|_]; [done|].
    destruct (Z.eqb_spec amt 0) as [?|_]; [done|].
    simpl. rewrite Hmode, Hplayer, Hphase, Hteam, Hauth. simpl.
    destruct (Z.leb_spec amt (current_bid (state w2))) as [?|_]; [lia|].
    destruct (Z.ltb_spec (budget_remaining team) amt) as [?|_]; [lia|].
    done.
Qed.

Lemma C7_setup_rejects_manual_bid_witness :
  let w :=
    run [mkEvent 0 (AStart Demo.admin None);
         mkEvent 0 (ANextPlayer Demo.admin (Some 7))] Demo.demo_world in
  bid_route Demo.owner1 (Some 1) (Some 150000) None w =
    (RespErr 400 "Still in setup phase - set your auto-bid target instead", w)
  ∧ current_bid
      (state (snd (bid_route Demo.owner1 (Some 1) (Some 150000) None
                     Demo.bidding_world))) = 150000.
Proof.
  intros w.
  destruct (C7_setup_rejects_manual_bid w Demo.owner1 (Some 1) (Some 150000) None
              eq_refl) as (_ & Hrej & Hacc).
  split.
  - apply Hrej; reflexivity.
  - destruct (Hacc Demo.bidding_world 1 150000
                (mkTeam "Aces" (Some 10) (Some 11) 10000000 None))
      as (_ & _ & Heq);
      [reflexivity|lia|reflexivity|lia|reflexivity|reflexivity|reflexivity
      |reflexivity|reflexivity|vm_compute; reflexivity|vm_compute; discriminate|].
    rewrite Heq. reflexivity.
Defined.

(** ** Draining one entry *)

(** Right after an entry was processed, [lastBidTime] is the current
    clock reading: the loop head then ends the loop or suspends it, and
    touches neither the database, nor the queue, nor the spectators. *)
Definition quiet (w w' : World) : Prop :=
  db w' = db w
  ∧ emitted (rt w') = emitted (rt w)
  ∧ bidQueue (eng w') = bidQueue (eng w)
  ∧ autoBidSettings (eng w') = autoBidSettings (eng w)
  ∧ lastBidTime (eng w') = lastBidTime (eng w)
  ∧ now w' = now w.

Lemma quiet_refl (w : World) : quiet w w.
Proof. done. Qed.

Lemma quiet_trans (w1 w2 w3 : World) : quiet w1 w2 → quiet w2 w3 → quiet w1 w3.
Proof.
  intros (?&?&?&?&?&?) (?&?&?&?&?&?). unfold quiet. split_and!; congruence.
Qed.

Lemma drain_loop_quiet (n : nat) (w : World) :
  lastBidTime (eng w) = now w → quiet w (drain_loop n w).
Proof.
  intros Hlast. destruct n as [|n]; simpl; [done|].
  destruct (_ =? _)%nat; [done|].
  rewrite Hlast, Z.sub_diag. done.
Qed.

Lemma executeBid_now (bid : PendingBid) (w : World) :
  now (snd (executeBid bid w)) = now w
  ∧ eng (snd (executeBid bid w)) = eng w.
Proof. unfold executeBid. repeat case_match; done. Qed.

Lemma checkAutoBids_quiet (n : nat) (x : Z) (w : World) :
  lastBidTime (eng w) = now w →
  let w' := checkAutoBids_with (drain_loop n) x w in
  db w' = db w
  ∧ emitted (rt w') = emitted (rt w)
  ∧ lastBidTime (eng w') = now w'
  ∧ now w' = now w
  ∧ autoBidSettings (eng w') = autoBidSettings (eng w)
  ∧ bidQueue (eng w') =
      if negb (is_auction (mode (state w)))
         || negb (truthy (current_player_id (state w)))
      then bidQueue (eng w)
      else bidQueue (eng w) ++ autoBidScan w x.
Proof.
  intros Hlast. unfold checkAutoBids_with.
  destruct (_ || _); [done|].
  set (w1 := set_bidQueue (bidQueue (eng w) ++ autoBidScan w x) w).
  destruct (_ && _); [|done].
  unfold processBidQueue_with.
  destruct (_ || _); [done|].
  destruct (drain_loop_quiet n (set_isProcessingBids true w1) Hlast)
    as (Hdb & Hem & Hq & Hab & Hl & Hn).
  rewrite Hdb, Hem, Hq, Hab, Hl, Hn. done.
Qed.







(** ** The auto-bid evaluator *)

(** The synthetic bid [b] that the trigger rule asks for after [bidder]
    has bid: some other team has an enabled instruction and
    currentBid + increment is within its ceiling and within the team's
    remaining budget. *)
Definition auto_bid_due (w : World) (bidder : Z) (b : PendingBid) : Prop :=
  ∃ team_id settings team,
    (team_id, settings) ∈ autoBidSettings (eng w)
    ∧ team_id ≠ bidder
    ∧ active settings = true
    ∧ get_team w team_id = Some team
    ∧ current_bid (state w) + ab_increment settings ≤ maxBid settings
    ∧ current_bid (state w) + ab_increment settings ≤ budget_remaining team
    ∧ b = mkBid team_id (current_bid (state w) + ab_increment settings)
            (ab_increment settings) true.

Lemma elem_of_autoBidEntry (w : World) (x team_id : Z) (settings : AutoBid)
    (b : PendingBid) :
  b ∈ autoBidEntry w x (team_id, settings) ↔
  team_id ≠ x ∧ active settings = true
  ∧ ∃ team, get_team w team_id = Some team
      ∧ current_bid (state w) + ab_increment settings ≤ maxBid settings
      ∧ current_bid (state w) + ab_increment settings ≤ budget_remaining team
      ∧ b = mkBid team_id (current_bid (state w) + ab_increment settings)
              (ab_increment settings) true.
Proof.
  unfold autoBidEntry.
  destruct (Z.eqb_spec team_id x) as [->|Hne]; simpl.
  { split; [by intros ?%elem_of_nil|]. by intros [? _]. }
  destruct (active settings); simpl.
  2: { split; [by intros ?%elem_of_nil|]. by intros (_ & ? & _). }
  destruct (get_team w team_id) as [team|].
  2: { split; [by intros ?%elem_of_nil|]. by intros (_ & _ & ? & ? & _). }
  destruct (Z.leb_spec (current_bid (state w) + ab_increment settings)
              (maxBid settings)); simpl.
  2: { split; [by intros ?%elem_of_nil|].
       intros (_ & _ & ? & _ & ? & _). lia. }
  destruct (Z.leb_spec (current_bid (state w) + ab_increment settings)
              (budget_remaining team)); simpl.
  2: { split; [by intros ?%elem_of_nil|].
       intros (_ & _ & ? & [= <-] & _ & ? & _). lia. }
  rewrite list_elem_of_singleton. split.
  - intros ->. split; [done|]. split; [done|]. by exists team.
  - by intros (_ & _ & ? & _ & _ & _ & ->).
Qed.

Lemma elem_of_concat_map {A B} (f : A → list B) (l : list A) (b : B) :
  b ∈ concat (map f l) ↔ ∃ a, a ∈ l ∧ b ∈ f a.
Proof.
  induction l as [|a l IH]; simpl.
  - split; [by intros ?%elem_of_nil|]. by intros (? & ?%elem_of_nil & _).
  - rewrite elem_of_app, IH. split.
    + intros [?|(a' & ? & ?)]; [exists a|exists a']; split; try done;
        [by left|by right].
    + intros (a' & [->|?]%elem_of_cons & ?); [by left|right; eauto].
Qed.

Lemma elem_of_autoBidScan (w : World) (x : Z) (b : PendingBid) :
  b ∈ autoBidScan w x ↔ auto_bid_due w x b.
Proof.
  unfold autoBidScan, auto_bid_due. rewrite elem_of_concat_map. split.
  - intros ([team_id settings] & Hin & Hb).
    apply elem_of_autoBidEntry in Hb as (? & ? & team & ? & ? & ? & ?).
    by exists team_id, settings, team.
  - intros (team_id & settings & team & Hin & ? & ? & ? & ? & ? & ?).
    exists (team_id, settings). split; [done|].
    apply elem_of_autoBidEntry. split; [done|]. split; [done|]. by exists team.
Qed.






(** ** The opening auto-bid *)

(** A bid at exactly the current bid never passes [executeBid]. *)
Lemma executeBid_at_current_bid (w : World) (team_id incr : Z) (auto : bool) :
  ∃ err,
    executeBid (mkBid team_id (current_bid (state w)) incr auto) w
    = (ExecFail err, w).
Proof.
  unfold executeBid. simpl.
  destruct (_ || _); [eauto|].
  rewrite Z.leb_refl. eauto.
Qed.

(** Player 7 (base price 100000) is in its setup phase and team 2 has
    registered an instruction with ceiling 500000 and increment 10000. *)
Definition seeded_setup : World :=
  run [mkEvent 0 (AStart Demo.admin None);
       mkEvent 0 (ANextPlayer Demo.admin (Some 7));
       mkEvent 500 (AAutoBid Demo.owner2 (Some 2) (Some 500000) (Some 10000) None)]
    Demo.demo_world.

(** C2, on the code. When the bidding phase begins in [seeded_setup], the
    evaluator does enqueue the opening bid of team 2 at the base price with
    zero increment, but the drainer's [executeBid] rejects that entry as
    'Bid too low' (its amount is not above the current bid): team 2 does
    not become the current bidder, and nothing is logged. *)
Theorem C2_opening_bid_is_dropped :
  let w := set_clock (now seeded_setup + 30000) seeded_setup in
  let seed := mkBid 2 100000 0 true in
  let opened :=
    emit (EvBiddingStarted (now w + 30000))
      (set_state (with_timer_end (Some (now w + 30000)))
         (set_currentPhase "bidding" w)) in
  current_bid (state w) = 100000
  ∧ autoBidSettings (eng w) = [(2, mkAutoBid 500000 10000 true)]
  ∧ budget_remaining <$> get_team w 2 = Some 10000000
  ∧ startBiddingPhase w = processBidQueue (set_bidQueue [seed] opened)
  ∧ executeBid seed opened = (ExecFail "Bid too low", opened)
  ∧ current_bidder_team_id (state (startBiddingPhase w)) = None
  ∧ current_bid (state (startBiddingPhase w)) = 100000
  ∧ bidQueue (eng (startBiddingPhase w)) = []
  ∧ auction_log (db (startBiddingPhase w)) = [].
Proof. vm_compute. split_and!; reflexivity. Qed.

(** ** Applied bids increase *)






















(** ** Pacing of the drained bids, and the single drainer *)

(** An 'auction:bid' event of [executeBid] (the manual endpoint marks its
    events with [isManualBid]). *)
Definition is_drained_bid (e : IoEvent) : bool :=
  match e with
  | EvBid _ _ _ _ _ manual _ _ => negb manual
  | _ => false
  end.

Definition is_started (e : IoEvent) : bool :=
  match e with
  | EvAuctionStarted _ => true
  | _ => false
  end.

(** In the events sent so far (newest first), [t1] and [t2] are the times
    of two bids applied from the queue with no other such bid in
    [between]. *)
Definition drained_pair (l : list (Z * IoEvent)) (t1 t2 : Z)
    (between : list (Z * IoEvent)) : Prop :=
  ∃ newer older e1 e2,
    l = newer ++ (t2, e2) :: between ++ (t1, e1) :: older
    ∧ is_drained_bid e1 = true
    ∧ is_drained_bid e2 = true
    ∧ Forall (λ te, is_drained_bid te.2 = false) between.

(** The time of the latest bid applied from the queue since the auction
    was last started. *)
Fixpoint last_drained (l : list (Z * IoEvent)) : option Z :=
  match l with
  | [] => None
  | (t, e) :: r =>
    if is_drained_bid e then Some t
    else if is_started e then None
    else last_drained r
  end.

Fixpoint paced (l : list (Z * IoEvent)) : Prop :=
  match l with
  | [] => True
  | (t, e) :: r =>
    (is_drained_bid e = true →
     ∀ t0, last_drained r = Some t0 → t0 + BID_INTERVAL_MS ≤ t)
    ∧ paced r
  end.

Lemma paced_app_r (l1 l2 : list (Z * IoEvent)) : paced (l1 ++ l2) → paced l2.
Proof.
  induction l1 as [|[t e] l1 IH]; simpl; [done|]. intros [_ H]. by apply IH.
Qed.

Lemma last_drained_between (between older : list (Z * IoEvent)) (t1 : Z)
    (e1 : IoEvent) :
  is_drained_bid e1 = true →
  Forall (λ te, is_drained_bid te.2 = false) between →
  Forall (λ te, is_started te.2 = false) between →
  last_drained (between ++ (t1, e1) :: older) = Some t1.
Proof.
  intros He1. induction between as [|[t e] between IH]; simpl.
  - intros _ _. by rewrite He1.
  - intros [Hd Hds]%Forall_cons [Hs Hss]%Forall_cons. simpl in Hd, Hs.
    rewrite Hd, Hs. by apply IH.
Qed.

Lemma paced_pair (l : list (Z * IoEvent)) (t1 t2 : Z)
    (between : list (Z * IoEvent)) :
  paced l → drained_pair l t1 t2 between →
  Forall (λ te, is_started te.2 = false) between →
  t1 + BID_INTERVAL_MS ≤ t2.
Proof.
  intros Hpaced (newer & older & e1 & e2 & -> & He1 & He2 & Hbetween) Hsession.
  apply paced_app_r in Hpaced. simpl in Hpaced. destruct Hpaced as [Hhead _].
  apply Hhead; [done|]. by apply last_drained_between.
Qed.

(** The invariant of the worlds between two turns of the event loop. *)
Record drain_inv (w : World) : Prop := mkDrainInv {
  inv_paced : paced (emitted (rt w));
  inv_last :
    ∀ t0, last_drained (emitted (rt w)) = Some t0 → t0 ≤ lastBidTime (eng w);
  inv_due :
    ∀ due t0, due ∈ drain_timers (rt w) →
      last_drained (emitted (rt w)) = Some t0 → t0 + BID_INTERVAL_MS ≤ due;
  inv_idle : isProcessingBids (eng w) = false → drain_timers (rt w) = [];
  inv_one : (length (drain_timers (rt w)) ≤ 1)%nat
}.

(** The invariant while the one drain loop is running. *)
Record drain_running (w : World) : Prop := mkDrainRunning {
  run_paced : paced (emitted (rt w));
  run_last :
    ∀ t0, last_drained (emitted (rt w)) = Some t0 → t0 ≤ lastBidTime (eng w);
  run_flag : isProcessingBids (eng w) = true;
  run_alone : drain_timers (rt w) = []
}.

(** Events other than a drained bid and the start of an auction. *)
Definition neutral (te : Z * IoEvent) : Prop :=
  is_drained_bid te.2 = false ∧ is_started te.2 = false.

Lemma last_drained_neutral (es l : list (Z * IoEvent)) :
  Forall neutral es → last_drained (es ++ l) = last_drained l.
Proof.
  induction es as [|[t e] es IH]; simpl; [done|].
  intros [[Hd Hs] Hes]%Forall_cons. simpl in Hd, Hs. rewrite Hd, Hs. by apply IH.
Qed.

Lemma paced_neutral (es l : list (Z * IoEvent)) :
  Forall neutral es → paced l → paced (es ++ l).
Proof.
  induction es as [|[t e] es IH]; simpl; [done|].
  intros [[Hd Hs] Hes]%Forall_cons Hl. simpl in Hd. split; [|by apply IH].
  intros Hbid. congruence.
Qed.

(** The fields the invariants read are the same, up to neutral events. *)
Definition same_pacing (w w' : World) : Prop :=
  lastBidTime (eng w') = lastBidTime (eng w)
  ∧ isProcessingBids (eng w') = isProcessingBids (eng w)
  ∧ drain_timers (rt w') = drain_timers (rt w)
  ∧ ∃ es, emitted (rt w') = es ++ emitted (rt w) ∧ Forall neutral es.

Lemma same_pacing_refl (w : World) : same_pacing w w.
Proof. split_and!; try done. by exists []. Qed.

Lemma same_pacing_trans (w1 w2 w3 : World) :
  same_pacing w1 w2 → same_pacing w2 w3 → same_pacing w1 w3.
Proof.
  intros (Hl1 & Hf1 & Hd1 & es1 & He1 & Hn1) (Hl2 & Hf2 & Hd2 & es2 & He2 & Hn2).
  split_and!; try congruence.
  exists (es2 ++ es1). rewrite He2, He1, app_assoc. split; [done|].
  by apply Forall_app.
Qed.

Lemma same_pacing_emit (e : IoEvent) (w w' : World) :
  is_drained_bid e = false → is_started e = false →
  same_pacing w w' → same_pacing w (emit e w').
Proof.
  intros Hd Hs (Hl & Hf & Hdt & es & He & Hn). split_and!; try done.
  exists ((now w', e) :: es). simpl. rewrite He. split; [done|].
  by constructor.
Qed.

Lemma same_pacing_cancel (w : World) : same_pacing w (cancel_phaseTimer w).
Proof.
  destruct (cancel_phaseTimer_eng_db w) as (_ & _ & _ & Hf & Hl & _ & _ & Hd & He & _).
  split_and!; try done. exists []. by rewrite He.
Qed.

Lemma drain_inv_same (w w' : World) :
  same_pacing w w' → drain_inv w → drain_inv w'.
Proof.
  intros (Hl & Hf & Hd & es & He & Hn) [Hp Hlast Hdue Hidle Hone].
  split; rewrite ?He, ?Hl, ?Hf, ?Hd, ?last_drained_neutral by done; try done.
  by apply paced_neutral.
Qed.

Lemma drain_running_same (w w' : World) :
  same_pacing w w' → drain_running w → drain_running w'.
Proof.
  intros (Hl & Hf & Hd & es & He & Hn) [Hp Hlast Hflag Halone].
  split; rewrite ?He, ?Hl, ?Hf, ?Hd, ?last_drained_neutral by done; try done.
  by apply paced_neutral.
Qed.

Lemma drain_running_inv (w : World) : drain_running w → drain_inv w.
Proof.
  intros [Hp Hlast Hflag Halone]. split; try done.
  - intros due t0. rewrite Halone. by intros ?%elem_of_nil.
  - rewrite Halone. simpl. lia.
Qed.

Lemma executeBid_pacing (bid : PendingBid) (w : World) :
  let w1 := snd (executeBid bid w) in
  eng w1 = eng w
  ∧ drain_timers (rt w1) = drain_timers (rt w)
  ∧ now w1 = now w
  ∧ (emitted (rt w1) = emitted (rt w)
     ∨ ∃ e, is_drained_bid e = true
            ∧ emitted (rt w1) = (now w, e) :: emitted (rt w)).
Proof.
  unfold executeBid. repeat case_match; simpl; split_and!; try done;
    try (by left).
  all: right; eexists; split; [|reflexivity]; done.
Qed.

Lemma checkAutoBids_running (loop : World → World) (x : Z) (w : World) :
  isProcessingBids (eng w) = true →
  same_pacing w (checkAutoBids_with loop x w).
Proof.
  intros Hflag. unfold checkAutoBids_with.
  destruct (_ || _); [apply same_pacing_refl|].
  simpl. rewrite Hflag, andb_false_r. split_and!; try done. by exists [].
Qed.

Lemma drain_iter_inv (loop : World → World) (w : World) :
  (∀ v, drain_running v → drain_inv (loop v)) →
  drain_running w →
  (∀ t0, last_drained (emitted (rt w)) = Some t0 → t0 + BID_INTERVAL_MS ≤ now w) →
  drain_inv (drain_iter loop w).
Proof.
  intros Hloop Hrun Hnow. unfold drain_iter.
  destruct (bidQueue (eng w)) as [|bid rest]; [by apply Hloop|].
  apply Hloop.
  set (w0 := set_bidQueue rest w).
  destruct (executeBid_pacing bid w0) as (Heng & Hdt & Hn & Hem).
  set (w1 := snd (executeBid bid w0)) in *.
  eapply drain_running_same.
  { apply checkAutoBids_running. simpl. rewrite Heng. apply Hrun. }
  destruct Hrun as [Hp Hlast Hflag Halone].
  split; simpl; rewrite ?Heng, ?Hdt; try done.
  - destruct Hem as [-> | (e & He & ->)]; [done|]. simpl. split; [|done].
    intros _ t0 Ht0. by apply Hnow.
  - unfold now in *. rewrite Hn.
    destruct Hem as [-> | (e & He & ->)]; simpl.
    + intros t0 Ht0. specialize (Hnow t0 Ht0). unfold BID_INTERVAL_MS in Hnow. lia.
    + rewrite He. intros t0 [= <-]. done.
Qed.

Lemma drain_loop_inv (n : nat) (w : World) :
  drain_running w → drain_inv (drain_loop n w).
Proof.
  revert w. induction n as [|n IH]; intros w Hrun; simpl.
  { by apply drain_running_inv. }
  destruct (_ =? _)%nat.
  { destruct Hrun as [Hp Hlast _ Halone].
    split; simpl; rewrite ?Halone; try done.
    - intros due t0. by intros ?%elem_of_nil.
    - simpl. lia. }
  destruct (Z.ltb_spec (now w - lastBidTime (eng w)) BID_INTERVAL_MS) as [Hwait|Hgo].
  - destruct Hrun as [Hp Hlast Hflag Halone].
    split; unfold suspend_drain; simpl; rewrite ?Halone; try done.
    + intros due t0 ->%list_elem_of_singleton Ht0. specialize (Hlast t0 Ht0). lia.
    + by rewrite Hflag.
  - apply drain_iter_inv; [exact IH|done|].
    intros t0 Ht0. pose proof (run_last w Hrun t0 Ht0). lia.
Qed.

Lemma processBidQueue_inv (w : World) :
  drain_inv w → drain_inv (processBidQueue w).
Proof.
  intros Hinv. unfold processBidQueue, processBidQueue_with.
  destruct (isProcessingBids (eng w)) eqn:Hflag; [exact Hinv|].
  rewrite orb_false_l.
  destruct (_ =? _)%nat; [exact Hinv|].
  apply drain_loop_inv.
  destruct Hinv as [Hp Hlast _ Hidle _].
  split; simpl; auto.
Qed.

Lemma triggerInitialAutoBids_inv (st : AuctionState) (w : World) :
  drain_inv w → drain_inv (triggerInitialAutoBids st w).
Proof.
  intros Hinv. unfold triggerInitialAutoBids.
  repeat case_match; try done.
  apply processBidQueue_inv.
  eapply drain_inv_same; [|exact Hinv]. split_and!; try done. by exists [].
Qed.

Lemma startBiddingPhase_inv (w : World) :
  drain_inv w → drain_inv (startBiddingPhase w).
Proof.
  intros Hinv. unfold startBiddingPhase.
  assert (Hpre : drain_inv
    (emit (EvBiddingStarted (now (set_currentPhase "bidding" w) + 30 * 1000))
       (set_state
          (with_timer_end (Some (now (set_currentPhase "bidding" w) + 30 * 1000)))
          (set_currentPhase "bidding" w)))).
  { eapply drain_inv_same; [|exact Hinv].
    apply same_pacing_emit; [done|done|]. split_and!; try done. by exists []. }
  destruct (truthy _); [|exact Hpre].
  by apply triggerInitialAutoBids_inv.
Qed.

Lemma fire_drainTimer_inv (i : nat) (w : World) :
  drain_inv w → drain_inv (fire_drainTimer i w).
Proof.
  intros Hinv. unfold fire_drainTimer.
  destruct (drain_timers (rt w) !! i) as [due|] eqn:Hdue; [|done].
  destruct (Z.leb_spec due (now w)) as [Hnow|_]; [|done].
  destruct Hinv as [Hp Hlast Hdue' Hidle Hone].
  assert (Hsingle : drain_timers (rt w) = [due] ∧ i = O).
  { destruct (drain_timers (rt w)) as [|d [|d' l]]; simpl in *; [done| |lia].
    destruct i; simpl in Hdue; [by injection Hdue as ->|done]. }
  destruct Hsingle as [Hsingle ->].
  apply drain_iter_inv.
  - apply drain_loop_inv.
  - split; simpl; try done.
    + destruct (isProcessingBids (eng w)); [done|].
      rewrite Hidle in Hsingle; done.
    + by rewrite Hsingle.
  - simpl. intros t0 Ht0. etrans; [|exact Hnow].
    apply Hdue'; [|done]. rewrite Hsingle. by apply list_elem_of_singleton.
Qed.

Lemma same_pacing_step (w w' : World) :
  lastBidTime (eng w') = lastBidTime (eng w) →
  isProcessingBids (eng w') = isProcessingBids (eng w) →
  drain_timers (rt w') = drain_timers (rt w) →
  emitted (rt w') = emitted (rt w) →
  same_pacing w w'.
Proof. intros ? ? ? He. split_and!; try done. exists []. by rewrite He. Qed.

Create HintDb pacing.

Lemma same_pacing_set_state f w : same_pacing w (set_state f w).
Proof. by apply same_pacing_step. Qed.
Lemma same_pacing_set_teams t w : same_pacing w (set_teams t w).
Proof. by apply same_pacing_step. Qed.
Lemma same_pacing_set_players p w : same_pacing w (set_players p w).
Proof. by apply same_pacing_step. Qed.
Lemma same_pacing_set_team_roster r w : same_pacing w (set_team_roster r w).
Proof. by apply same_pacing_step. Qed.
Lemma same_pacing_set_auction_log l w : same_pacing w (set_auction_log l w).
Proof. by apply same_pacing_step. Qed.
Lemma same_pacing_set_autoBidSettings a w :
  same_pacing w (set_autoBidSettings a w).
Proof. by apply same_pacing_step. Qed.
Lemma same_pacing_set_bidQueue q w : same_pacing w (set_bidQueue q w).
Proof. by apply same_pacing_step. Qed.
Lemma same_pacing_set_currentPhase p w : same_pacing w (set_currentPhase p w).
Proof. by apply same_pacing_step. Qed.
Lemma same_pacing_arm ms w : same_pacing w (arm_phaseTimer ms w).
Proof. by apply same_pacing_step. Qed.

#[local] Hint Resolve same_pacing_set_state same_pacing_set_teams
  same_pacing_set_players same_pacing_set_team_roster
  same_pacing_set_auction_log same_pacing_set_autoBidSettings
  same_pacing_set_bidQueue same_pacing_set_currentPhase same_pacing_arm
  same_pacing_cancel : pacing.

(** Peel the updates of a handler off, outermost first. *)
Ltac same_pacing_peel :=
  repeat first
    [ apply same_pacing_refl
    | apply same_pacing_emit; [done|done|]
    | eapply same_pacing_trans; [|solve [eauto with pacing]] ].

Ltac same_pacing_route :=
  repeat case_match; simpl;
  repeat (apply same_pacing_emit; [done|done|]);
  first
    [ apply same_pacing_refl
    | split_and!; try done; by exists [] ].

Lemma drain_inv_handle (a : Action) (w : World) :
  drain_inv w → drain_inv (snd (handle a w)).
Proof.
  intros Hinv. destruct a; simpl.
  - unfold start_route. case_match; simpl; [done|].
    destruct Hinv as [Hp Hlast Hdue Hidle Hone]. split; simpl; done.
  - unfold next_player_route. repeat case_match; simpl; try done.
    eapply drain_inv_same; [|exact Hinv]. same_pacing_peel.
  - unfold bid_route. repeat case_match; simpl; try done.
    apply processBidQueue_inv. eapply drain_inv_same; [|exact Hinv].
    same_pacing_route.
  - eapply drain_inv_same; [|exact Hinv]. unfold auto_bid_route.
    same_pacing_route.
  - unfold sold_route, reset_block. repeat case_match; simpl; try done;
      (eapply drain_inv_same; [|exact Hinv]); same_pacing_peel.
  - unfold unsold_route, reset_block. repeat case_match; simpl; try done;
      (eapply drain_inv_same; [|exact Hinv]); same_pacing_peel.
  - eapply drain_inv_same; [|exact Hinv]. unfold end_route. same_pacing_route.
  - eapply drain_inv_same; [|exact Hinv]. unfold authority_route.
    same_pacing_route.
  - eapply drain_inv_same; [|exact Hinv]. unfold revoke_route. same_pacing_route.
  - eapply drain_inv_same; [|exact Hinv]. unfold manual_bid_route.
    same_pacing_route.
  - unfold skip_to_bidding_route. repeat case_match; simpl; try done.
    apply startBiddingPhase_inv.
    eapply drain_inv_same; [apply same_pacing_cancel|exact Hinv].
  - eapply drain_inv_same; [|exact Hinv]. unfold extend_timer_route.
    same_pacing_route.
  - unfold pause_route. repeat case_match; simpl; try done.
    eapply drain_inv_same; [|exact Hinv]. same_pacing_peel.
  - eapply drain_inv_same; [|exact Hinv]. unfold set_setup_duration_route.
    same_pacing_route.
  - eapply drain_inv_same; [|exact Hinv]. unfold resume_route. same_pacing_route.
  - eapply drain_inv_same; [|exact Hinv]. unfold draft_start_route.
    same_pacing_route.
  - eapply drain_inv_same; [|exact Hinv]. unfold draft_pick_route.
    same_pacing_route.
  - eapply drain_inv_same; [|exact Hinv]. unfold draft_set_timer_route.
    same_pacing_route.
  - eapply drain_inv_same; [|exact Hinv]. unfold draft_end_route.
    same_pacing_route.
  - unfold fire_phaseTimer. repeat case_match; simpl; try done.
    apply startBiddingPhase_inv.
    eapply drain_inv_same; [|exact Hinv]. split_and!; try done. by exists [].
  - by apply fire_drainTimer_inv.
  - case_match; [|done].
    eapply drain_inv_same; [|exact Hinv]. split_and!; try done. by exists [].
Qed.

Lemma drain_inv_run (evs : list Event) (w : World) :
  drain_inv w → drain_inv (run evs w).
Proof.
  revert w. induction evs as [|e evs IH]; intros w Hinv; [done|].
  simpl. apply IH. unfold step. apply drain_inv_handle.
  eapply drain_inv_same; [|exact Hinv]. split_and!; try done. by exists [].
Qed.

Lemma drain_inv_boot (d : Db) (t0 : Z) : drain_inv (boot d t0).
Proof. split; simpl; try done. lia. Qed.

(** The claim as worded: any two consecutive bids applied from the queue
    are at least the pacing interval apart. *)
Definition always_paced : Prop :=
  ∀ d t0 evs t1 t2 between,
    drained_pair (emitted (rt (run evs (boot d t0)))) t1 t2 between →
    t1 + BID_INTERVAL_MS ≤ t2.

(** A bid is applied from the queue; within the next four milliseconds
    the admin starts the auction again (which sets [lastBidTime] to 0),
    puts the player back on the block and opens the bidding, and the next
    bid is applied without any wait. *)
Definition restart_trace : list Event :=
  [mkEvent 0 (AStart Demo.admin None);
   mkEvent 0 (ANextPlayer Demo.admin (Some 7));
   mkEvent 1000 (ASkipToBidding Demo.admin);
   mkEvent 1000 (ABid Demo.owner1 (Some 1) (Some 150000) None);
   mkEvent 1 (AStart Demo.admin None);
   mkEvent 1 (ANextPlayer Demo.admin (Some 7));
   mkEvent 1 (ASkipToBidding Demo.admin);
   mkEvent 1 (ABid Demo.owner1 (Some 1) (Some 150000) None)].

Lemma C9_restart_counterexample : ¬ always_paced.
Proof.
  intros Hclaim.
  specialize (Hclaim Demo.demo_db 1000000 restart_trace 1002000 1002004
    [(1002004, EvBidQueued 1 150000 1);
     (1002003, EvBiddingStarted 1032003);
     (1002002, EvAuctionPlayer 7 100000 1032002);
     (1002001, EvAuctionStarted 1)]).
  unfold BID_INTERVAL_MS in Hclaim.
  assert (1002000 + 3000 ≤ 1002004); [|lia].
  apply Hclaim.
  exists [], [(1002000, EvBidQueued 1 150000 1);
              (1001000, EvBiddingStarted 1031000);
              (1000000, EvAuctionPlayer 7 100000 1030000);
              (1000000, EvAuctionStarted 1)],
    (EvBid 7 1 150000 50000 false false 1012000 0),
    (EvBid 7 1 150000 50000 false false 1012004 0).
  split; [reflexivity|]. split; [reflexivity|]. split; [reflexivity|].
  repeat constructor.
Qed.

(** C9 (within one auction session). In every world the server can
    reach, two consecutive bids applied from the queue, with no start of
    an auction between them, are at least the pacing interval of 3000 ms
    apart. At most one drain loop is suspended at any time, a suspended
    loop keeps [isProcessingBids] set, and while it is set a call of
    [processBidQueue] returns at once and changes nothing. *)
Theorem C9_paced_single_drainer (d : Db) (t0 : Z) (evs : list Event) :
  let w := run evs (boot d t0) in
  (∀ t1 t2 between,
     drained_pair (emitted (rt w)) t1 t2 between →
     Forall (λ te, is_started te.2 = false) between →
     t1 + BID_INTERVAL_MS ≤ t2)
  ∧ BID_INTERVAL_MS = 3000
  ∧ (length (drain_timers (rt w)) ≤ 1)%nat
  ∧ (drain_timers (rt w) ≠ [] → isProcessingBids (eng w) = true)
  ∧ (isProcessingBids (eng w) = true → processBidQueue w = w).
Proof.
  intros w.
  destruct (drain_inv_run evs _ (drain_inv_boot d t0))
    as [Hp _ _ Hidle Hone]. fold w in Hp, Hidle, Hone.
  split_and!; try done.
  - intros t1 t2 between. by apply paced_pair.
  - intros Hne. destruct (isProcessingBids (eng w)); [done|]. by destruct Hne; auto.
  - intros Hflag. unfold processBidQueue, processBidQueue_with. by rewrite Hflag.
Qed.

Lemma C9_paced_single_drainer_witness :
  let evs :=
    [mkEvent 10 (ABid Demo.owner1 (Some 1) (Some 150000) None);
     mkEvent 10 (ABid Demo.owner2 (Some 2) (Some 160000) None);
     mkEvent 3000 (TDrainTimer 0)] in
  let bootable :=
    [mkEvent 0 (AStart Demo.admin None);
     mkEvent 0 (ANextPlayer Demo.admin (Some 7));
     mkEvent 1000 (ASkipToBidding Demo.admin)] in
  map fst
    (filter (λ te, is_drained_bid te.2 = true)
       (emitted (rt (run (bootable ++ evs) Demo.demo_world))))
    = [1004020; 1001010]
  ∧ 1001010 + BID_INTERVAL_MS ≤ 1004020.
Proof.
  intros evs bootable. split; [reflexivity|].
  destruct (C9_paced_single_drainer Demo.demo_db 1000000 (bootable ++ evs))
    as (Hpaced & _).
  apply (Hpaced 1001010 1004020 [(1001020, EvBidQueued 2 160000 1)]).
  - exists [], [(1001010, EvBidQueued 1 150000 1);
                (1001000, EvBiddingStarted 1031000);
                (1000000, EvAuctionPlayer 7 100000 1030000);
                (1000000, EvAuctionStarted 1)],
      (EvBid 7 1 150000 50000 false false 1011010 0),
      (EvBid 7 2 160000 10000 false false 1014020 0).
    split; [reflexivity|]. split; [reflexivity|]. split; [reflexivity|].
    repeat constructor.
  - repeat constructor.
Defined.

(** ** The fuel of the drain loop is enough

    Any larger amount of fuel gives the same world: the iteration after
    an entry was processed never processes a second one in the same
    turn. *)

Lemma drain_loop_paced_eq (n m : nat) (w : World) :
  lastBidTime (eng w) = now w → drain_loop (S n) w = drain_loop (S m) w.
Proof.
  intros Hlast. simpl. destruct (_ =? _)%nat; [done|].
  by rewrite Hlast, Z.sub_diag.
Qed.

Lemma checkAutoBids_fuel (n m : nat) (x : Z) (w : World) :
  lastBidTime (eng w) = now w →
  checkAutoBids_with (drain_loop (S n)) x w
  = checkAutoBids_with (drain_loop (S m)) x w.
Proof.
  intros Hlast. unfold checkAutoBids_with, processBidQueue_with.
  repeat case_match; try done.
  by apply drain_loop_paced_eq.
Qed.

Lemma drain_iter_fuel (n m : nat) (w : World) :
  drain_iter (drain_loop (S n)) w = drain_iter (drain_loop (S m)) w.
Proof.
  unfold drain_iter. destruct (bidQueue (eng w)) as [|bid rest] eqn:Hq.
  - simpl. by rewrite Hq.
  - set (w2 := set_lastBidTime _ _).
    assert (Hlast : lastBidTime (eng w2) = now w2) by done.
    rewrite (checkAutoBids_fuel n m _ _ Hlast).
    apply drain_loop_paced_eq.
    by destruct (checkAutoBids_quiet (S m) (teamId bid) w2 Hlast) as (_ & _ & ? & _).
Qed.

Lemma drain_loop_fuel (n : nat) (w : World) :
  drain_loop (S (S n)) w = drain_loop drain_fuel w.
Proof.
  unfold drain_fuel.
  change (drain_loop (S (S n)) w) with
    (if (length (bidQueue (eng w)) =? 0)%nat then set_isProcessingBids false w
     else if now w - lastBidTime (eng w) <? BID_INTERVAL_MS
          then suspend_drain (BID_INTERVAL_MS - (now w - lastBidTime (eng w))) w
          else drain_iter (drain_loop (S n)) w).
  change (drain_loop 2 w) with
    (if (length (bidQueue (eng w)) =? 0)%nat then set_isProcessingBids false w
     else if now w - lastBidTime (eng w) <? BID_INTERVAL_MS
          then suspend_drain (BID_INTERVAL_MS - (now w - lastBidTime (eng w))) w
          else drain_iter (drain_loop 1) w).
  repeat case_match; try done. apply drain_iter_fuel.
Qed.

Lemma drain_resume_fuel (n : nat) (w : World) :
  drain_iter (drain_loop (S n)) w = drain_resume w.
Proof. apply drain_iter_fuel. Qed.

(** * Further properties of the two routers *)

(** ** Rejected requests *)



(** ** The setup timer: one at a time, and none after a cancellation *)

Definition timer_single (w : World) : Prop :=
  (length (phase_timers (rt w)) ≤ 1)%nat.

Lemma timer_single_same (w w' : World) :
  same_timers w w' → timer_single w → timer_single w'.
Proof. intros [Ht _]. unfold timer_single. by rewrite Ht. Qed.

Lemma timer_single_nil (w : World) : phase_timers (rt w) = [] → timer_single w.
Proof. unfold timer_single. intros ->. simpl. lia. Qed.

Lemma timer_single_handle (a : Action) (w : World) :
  timer_owned w → timer_single w → timer_single (snd (handle a w)).
Proof.
  intros Hown Hone.
  assert (Hcancel : ∀ w', same_timers w w' →
    phase_timers (rt (cancel_phaseTimer w')) = []).
  { intros w' Hsame. apply timer_owned_cancel. by eapply timer_owned_same. }
  destruct a; simpl.
  - eapply timer_single_same; [|done]. unfold start_route. same_timers_route.
  - unfold next_player_route. repeat case_match; simpl; try done.
    unfold timer_single. simpl.
    rewrite (Hcancel (set_autoBidSettings [] (set_bidQueue [] w))) by done.
    simpl. lia.
  - eapply timer_single_same; [|done]. unfold bid_route. same_timers_route.
  - eapply timer_single_same; [|done]. unfold auto_bid_route. same_timers_route.
  - unfold sold_route, reset_block. repeat case_match; simpl; try done;
      apply timer_single_nil; simpl; by apply Hcancel.
  - unfold unsold_route, reset_block. repeat case_match; simpl; try done;
      apply timer_single_nil; simpl; by apply Hcancel.
  - eapply timer_single_same; [|done]. unfold end_route. same_timers_route.
  - eapply timer_single_same; [|done]. unfold authority_route. same_timers_route.
  - eapply timer_single_same; [|done]. unfold revoke_route. same_timers_route.
  - eapply timer_single_same; [|done]. unfold manual_bid_route. same_timers_route.
  - unfold skip_to_bidding_route. repeat case_match; simpl; try done.
    eapply timer_single_same; [apply same_timers_startBiddingPhase|].
    apply timer_single_nil. by apply Hcancel.
  - eapply timer_single_same; [|done]. unfold extend_timer_route. same_timers_route.
  - unfold pause_route. repeat case_match; simpl; try done.
    apply timer_single_nil; simpl; by apply Hcancel.
  - eapply timer_single_same; [|done]. unfold set_setup_duration_route.
    same_timers_route.
  - eapply timer_single_same; [|done]. unfold resume_route. same_timers_route.
  - eapply timer_single_same; [|done]. unfold draft_start_route. same_timers_route.
  - eapply timer_single_same; [|done]. unfold draft_pick_route. same_timers_route.
  - eapply timer_single_same; [|done]. unfold draft_set_timer_route.
    same_timers_route.
  - eapply timer_single_same; [|done]. unfold draft_end_route. same_timers_route.
  - unfold fire_phaseTimer. repeat case_match; simpl; try done.
    eapply timer_single_same; [apply same_timers_startBiddingPhase|].
    unfold timer_single in *. simpl.
    etrans; [apply length_filter|done].
  - unfold fire_drainTimer. repeat case_match; simpl; try done.
    eapply timer_single_same; [|done].
    eapply same_timers_trans; [|apply same_timers_drain_resume]. done.
  - case_match; done.
Qed.

Lemma timer_single_run (evs : list Event) (w : World) :
  timer_owned w → timer_single w →
  timer_owned (run evs w) ∧ timer_single (run evs w).
Proof.
  revert w. induction evs as [|e evs IH]; intros w Hown Hone; [done|].
  simpl. apply IH; unfold step.
  - by apply timer_owned_handle.
  - by apply timer_single_handle.
Qed.

(** X2. In every world the server can reach, at most one setup timer is
    live, and a live one is the timer whose handle [phaseTimer] holds:
    there are never two pending transitions to the bidding phase. *)
Theorem X2_one_setup_timer (d : Db) (t0 : Z) (evs : list Event) :
  let w := run evs (boot d t0) in
  (length (phase_timers (rt w)) ≤ 1)%nat
  ∧ ∀ h due, (h, due) ∈ phase_timers (rt w) → phaseTimer (eng w) = Some h.
Proof.
  intros w.
  destruct (timer_single_run evs (boot d t0)) as [Hown Hone].
  - by apply timer_owned_nil.
  - by apply timer_single_nil.
  - split; [exact Hone|]. intros h due Hin. by apply (Hown (h, due)).
Qed.

Lemma fire_phaseTimer_none (h : nat) (w : World) :
  phase_timers (rt w) = [] → fire_phaseTimer h w = w.
Proof. intros Hnil. unfold fire_phaseTimer. by rewrite Hnil. Qed.

(** X3. In a reachable world, after an admin's pause, sold or unsold no
    setup timer is live, so a timer turn of the event loop changes
    nothing but the clock, however late it comes: the bidding phase does
    not start behind the operator's back. A following resume sets the
    phase and the deadline shown to the clients but arms no timer either:
    after pause and resume('setup') the phase stays 'setup' until an
    admin skips to bidding. *)
Theorem X3_cancelled_timer_never_fires (w : World) (u : AuthUser) (a : Action) :
  reachable w → isAdmin u = true →
  a = APause u ∨ a = ASold u ∨ a = AUnsold u →
  let w' := snd (handle a w) in
  phase_timers (rt w') = []
  ∧ (∀ h dt, step (mkEvent dt (TPhaseTimer h)) w'
             = set_clock (now w' + Z.of_N dt) w')
  ∧ (∀ phase_arg,
       let w'' := snd (resume_route u phase_arg w') in
       phase_timers (rt w'') = []
       ∧ currentPhase (eng w'') = default "bidding"%string phase_arg
       ∧ timer_end (state w'') = Some (now w' + 30000)
       ∧ ∀ h dt, currentPhase
                   (eng (step (mkEvent dt (TPhaseTimer h)) w''))
                 = default "bidding"%string phase_arg).
Proof.
  intros Hreach Hadmin Ha w'.
  pose proof (timer_owned_reachable w Hreach) as Hown.
  assert (Hnil : phase_timers (rt w') = []).
  { subst w'. destruct Ha as [-> | [-> | ->]]; simpl.
    - unfold pause_route. rewrite Hadmin. simpl. by apply timer_owned_cancel.
    - unfold sold_route. rewrite Hadmin. simpl.
      destruct (reset_block_spec w) as (_ & _ & _ & _ & Hn & _).
      repeat case_match; simpl; by apply Hn.
    - unfold unsold_route. rewrite Hadmin. simpl.
      destruct (reset_block_spec w) as (_ & _ & _ & _ & Hn & _).
      repeat case_match; simpl; by apply Hn. }
  split; [exact Hnil|]. split.
  - intros h dt. unfold step. simpl. by apply fire_phaseTimer_none.
  - intros phase_arg w''. subst w''. unfold resume_route. rewrite Hadmin. simpl.
    split; [exact Hnil|]. split; [done|]. split; [done|].
    intros h dt. unfold step. simpl. by rewrite fire_phaseTimer_none.
Qed.

Lemma X3_cancelled_timer_never_fires_witness :
  let w :=
    run [mkEvent 0 (AStart Demo.admin None);
         mkEvent 0 (ANextPlayer Demo.admin (Some 7))] Demo.demo_world in
  let w' := snd (handle (APause Demo.admin) w) in
  phase_timers (rt w) = [(O, 1030000)]
  ∧ currentPhase
      (eng (step (mkEvent 60000 (TPhaseTimer O))
              (snd (resume_route Demo.admin (Some "setup"%string) w'))))
    = "setup"%string.
Proof.
  intros w w'. split; [reflexivity|].
  assert (Hreach : reachable w) by (by eexists _, _, _).
  destruct (X3_cancelled_timer_never_fires w Demo.admin (APause Demo.admin)
              Hreach eq_refl (or_introl eq_refl)) as (_ & _ & Hresume).
  destruct (Hresume (Some "setup"%string)) as (_ & _ & _ & Hphase).
  apply Hphase.
Defined.

(** ** From setup to bidding *)

Lemma cancel_phaseTimer_owned (w : World) :
  timer_owned w →
  cancel_phaseTimer w
  = set_phaseTimer None (set_phase_timers [] (next_handle (rt w)) w).
Proof.
  intros Hown. destruct (timer_owned_cancel w Hown) as [Hnil _].
  unfold cancel_phaseTimer in *.
  destruct (phaseTimer (eng w)) as [h|] eqn:Hh.
  - simpl in Hnil. by rewrite Hnil.
  - destruct w as [[] ? []]. simpl in *. by subst.
Qed.

(** X4. In a reachable world, an admin's next-player for an available
    player puts the player on the block at the base price with no bidder,
    empties the queue and the auto-bid instructions, enters the 'setup'
    phase and arms exactly one timer, due after the configured setup
    duration. A timer turn before that changes nothing but the clock; the
    first timer turn at or after the due time enters the 'bidding' phase
    with a 30 second deadline, keeps player and bid, and leaves no timer
    behind. *)
Theorem X4_setup_then_bidding (w : World) (u : AuthUser) (pid : Z)
    (player : Player) :
  reachable w → isAdmin u = true → pid ≠ 0 →
  available_player w pid = Some player →
  let w1 := snd (next_player_route u (Some pid) w) in
  let due := now w + setupPhaseDuration (eng w) in
  is_error (fst (next_player_route u (Some pid) w)) = false
  ∧ currentPhase (eng w1) = "setup"%string
  ∧ current_player_id (state w1) = Some pid
  ∧ current_bid (state w1) = base_price player
  ∧ current_bidder_team_id (state w1) = None
  ∧ timer_end (state w1) = Some due
  ∧ bidQueue (eng w1) = [] ∧ autoBidSettings (eng w1) = []
  ∧ phaseTimer (eng w1) = Some (next_handle (rt w))
  ∧ phase_timers (rt w1) = [(next_handle (rt w), due)]
  ∧ (∀ dt, now w + Z.of_N dt < due →
       step (mkEvent dt (TPhaseTimer (next_handle (rt w)))) w1
       = set_clock (now w + Z.of_N dt) w1)
  ∧ (∀ dt, due ≤ now w + Z.of_N dt →
       let w2 := step (mkEvent dt (TPhaseTimer (next_handle (rt w)))) w1 in
       currentPhase (eng w2) = "bidding"%string
       ∧ timer_end (state w2) = Some (now w + Z.of_N dt + 30000)
       ∧ current_player_id (state w2) = Some pid
       ∧ current_bid (state w2) = base_price player
       ∧ current_bidder_team_id (state w2) = None
       ∧ phase_timers (rt w2) = []).
Proof.
  intros Hreach Hadmin Hpid Havail w1 due.
  pose proof (timer_owned_reachable w Hreach) as Hown.
  assert (Hown0 : timer_owned (set_autoBidSettings [] (set_bidQueue [] w))).
  { by eapply timer_owned_same; [|exact Hown]. }
  assert (Ht : truthy (Some pid) = true).
  { simpl. by destruct (Z.eqb_spec pid 0). }
  assert (Hroute : next_player_route u (Some pid) w =
    (RespOk "Player set for auction - setup phase started",
     arm_phaseTimer (setupPhaseDuration (eng w))
       (emit (EvAuctionPlayer pid (base_price player) due)
          (set_state (fun s =>
             mkAuctionState (mode s) (Some pid) (base_price player) None
               (Some due) (draft_round s) (draft_pick s) (draft_order s)
               (season s))
             (set_currentPhase "setup"
                (set_phaseTimer None
                   (set_phase_timers [] (next_handle (rt w))
                      (set_autoBidSettings [] (set_bidQueue [] w))))))))).
  { unfold next_player_route. rewrite Hadmin, Ht. simpl. rewrite Havail.
    by rewrite (cancel_phaseTimer_owned _ Hown0). }
  subst w1. rewrite Hroute. simpl.
  split_and!; try done.
  - intros dt Hdt. unfold step. simpl. unfold fire_phaseTimer, due in *.
    repeat (progress (unfold now, arm_phaseTimer in *; simpl in * )).
    rewrite decide_True by done. simpl.
    destruct (Z.leb_spec (clock (rt w) + setupPhaseDuration (eng w))
                (clock (rt w) + Z.of_N dt)); [lia|done].
  - intros dt Hdt. unfold step. simpl. unfold fire_phaseTimer, due in *.
    repeat (progress (unfold now, arm_phaseTimer in *; simpl in * )).
    rewrite decide_True by done. simpl.
    destruct (Z.leb_spec (clock (rt w) + setupPhaseDuration (eng w))
                (clock (rt w) + Z.of_N dt)) as [_|?]; [|lia].
    rewrite filter_cons_False by (simpl; intros H; by apply H).
    rewrite filter_nil.
    unfold startBiddingPhase, triggerInitialAutoBids.
    repeat (progress (unfold now in *; simpl in * )).
    destruct (Z.eqb_spec pid 0); [done|]. simpl. done.
Qed.

Lemma X4_setup_then_bidding_witness :
  let w := run [mkEvent 0 (AStart Demo.admin None)] Demo.demo_world in
  let w1 := snd (next_player_route Demo.admin (Some 7) w) in
  phase_timers (rt w1) = [(O, 1030000)]
  ∧ currentPhase (eng (step (mkEvent 30000 (TPhaseTimer O)) w1))
    = "bidding"%string.
Proof.
  intros w w1.
  assert (Hreach : reachable w) by (by eexists _, _, _).
  destruct (X4_setup_then_bidding w Demo.admin 7 (mkPlayer (Some 30) 100000 true)
              Hreach eq_refl) as (_ & _ & _ & _ & _ & _ & _ & _ & _ & Htimers & _ & Hfire);
    [lia|reflexivity|].
  split; [exact Htimers|].
  destruct (Hfire 30000%N) as (Hphase & _); [vm_compute; discriminate|].
  exact Hphase.
Defined.

(** ** Queued entries name existing teams *)

Definition queue_teams_exist (w : World) : Prop :=
  ∀ b, b ∈ bidQueue (eng w) → is_Some (get_team w (teamId b)).

Lemma queue_teams_mono (w w' : World) :
  queue_teams_exist w →
  (∀ id, is_Some (get_team w id) → is_Some (get_team w' id)) →
  (∀ b, b ∈ bidQueue (eng w') → b ∈ bidQueue (eng w)) →
  queue_teams_exist w'.
Proof. intros HQ Hteams Hsub b Hb. by apply Hteams, HQ, Hsub. Qed.

Lemma queue_teams_nil (w : World) :
  bidQueue (eng w) = [] → queue_teams_exist w.
Proof. intros Hq b. rewrite Hq. by intros ?%elem_of_nil. Qed.

Lemma queue_teams_same (w w' : World) :
  teams (db w') = teams (db w) → bidQueue (eng w') = bidQueue (eng w) →
  queue_teams_exist w → queue_teams_exist w'.
Proof.
  intros Ht Hq HQ. eapply queue_teams_mono; [exact HQ| |].
  - intros id. unfold get_team. by rewrite Ht.
  - intros b. by rewrite Hq.
Qed.

Lemma executeBid_teams (bid : PendingBid) (w : World) :
  teams (db (snd (executeBid bid w))) = teams (db w).
Proof. unfold executeBid. repeat case_match; done. Qed.

Lemma queue_teams_executeBid (bid : PendingBid) (w : World) :
  queue_teams_exist w → queue_teams_exist (snd (executeBid bid w)).
Proof.
  apply queue_teams_same; [apply executeBid_teams|].
  by destruct (executeBid_now bid w) as [_ ->].
Qed.

Lemma queue_teams_push (w : World) (l : list PendingBid) :
  queue_teams_exist w →
  (∀ b, b ∈ l → is_Some (get_team w (teamId b))) →
  queue_teams_exist (set_bidQueue (bidQueue (eng w) ++ l) w).
Proof.
  intros HQ Hl b. simpl. intros [Hb|Hb]%elem_of_app; [by apply HQ|by apply Hl].
Qed.

Lemma autoBidScan_teams (w : World) (x : Z) (b : PendingBid) :
  b ∈ autoBidScan w x → is_Some (get_team w (teamId b)).
Proof.
  intros (team_id & settings & team & _ & _ & _ & Hteam & _ & _ & ->)
    %elem_of_autoBidScan.
  simpl. by rewrite Hteam.
Qed.

Lemma queue_teams_processBidQueue_with (loop : World → World) (w : World) :
  (∀ v, queue_teams_exist v → queue_teams_exist (loop v)) →
  queue_teams_exist w → queue_teams_exist (processBidQueue_with loop w).
Proof.
  intros Hloop HQ. unfold processBidQueue_with.
  destruct (_ || _); [done|]. apply Hloop.
  by eapply queue_teams_same; [| |exact HQ].
Qed.

Lemma queue_teams_checkAutoBids_with (loop : World → World) (x : Z) (w : World) :
  (∀ v, queue_teams_exist v → queue_teams_exist (loop v)) →
  queue_teams_exist w → queue_teams_exist (checkAutoBids_with loop x w).
Proof.
  intros Hloop HQ. unfold checkAutoBids_with.
  destruct (_ || _); [done|].
  assert (queue_teams_exist
            (set_bidQueue (bidQueue (eng w) ++ autoBidScan w x) w)).
  { apply queue_teams_push; [done|]. intros b. apply autoBidScan_teams. }
  destruct (_ && _); [|done].
  by apply queue_teams_processBidQueue_with.
Qed.

Lemma queue_teams_drain_iter (loop : World → World) (w : World) :
  (∀ v, queue_teams_exist v → queue_teams_exist (loop v)) →
  queue_teams_exist w → queue_teams_exist (drain_iter loop w).
Proof.
  intros Hloop HQ. unfold drain_iter.
  destruct (bidQueue (eng w)) as [|bid rest] eqn:Hq; [by apply Hloop|].
  apply Hloop. apply queue_teams_checkAutoBids_with; [done|].
  eapply queue_teams_same;
    [| |apply (queue_teams_executeBid bid (set_bidQueue rest w))]; try done.
  eapply queue_teams_mono; [exact HQ|done|].
  intros b. simpl. rewrite Hq. by right.
Qed.

Lemma queue_teams_drain_loop (n : nat) (w : World) :
  queue_teams_exist w → queue_teams_exist (drain_loop n w).
Proof.
  revert w. induction n as [|n IH]; intros w HQ; simpl; [done|].
  destruct (_ =? _)%nat; [by eapply queue_teams_same; [| |exact HQ]|].
  destruct (_ <? _); [by eapply queue_teams_same; [| |exact HQ]|].
  by apply queue_teams_drain_iter.
Qed.

Lemma queue_teams_processBidQueue (w : World) :
  queue_teams_exist w → queue_teams_exist (processBidQueue w).
Proof.
  apply queue_teams_processBidQueue_with. intros v.
  apply queue_teams_drain_loop.
Qed.

Lemma queue_teams_startBiddingPhase (w : World) :
  queue_teams_exist w → queue_teams_exist (startBiddingPhase w).
Proof.
  intros HQ. unfold startBiddingPhase.
  set (w3 := emit _ _).
  assert (HQ3 : queue_teams_exist w3) by (by eapply queue_teams_same; [| |exact HQ]).
  destruct (truthy _); [|done].
  unfold triggerInitialAutoBids.
  destruct (stable_sort _ _) as [|[team_id settings] _]; [done|].
  destruct (get_team w3 team_id) as [team|] eqn:Hteam; [|done].
  destruct (_ <=? _); [|done].
  apply queue_teams_processBidQueue, queue_teams_push; [done|].
  intros b ->%list_elem_of_singleton. simpl. by rewrite Hteam.
Qed.

Lemma alter_is_Some (f : Team → Team) (k id : Z) (m : gmap Z Team) :
  is_Some (m !! id) → is_Some (alter f k m !! id).
Proof.
  intros [t Ht]. rewrite lookup_alter. case_decide; subst; rewrite Ht; by eexists.
Qed.

Ltac queue_teams_route HQ :=
  repeat case_match; simpl; try done;
  first
    [ apply queue_teams_nil; simpl; done
    | by eapply queue_teams_same; [| |exact HQ]
    | (eapply queue_teams_mono; [exact HQ| |]);
      [intros ?; apply alter_is_Some|done] ].

Lemma queue_teams_handle (a : Action) (w : World) :
  queue_teams_exist w → queue_teams_exist (snd (handle a w)).
Proof.
  intros HQ. destruct a; simpl.
  - unfold start_route. queue_teams_route HQ.
  - unfold next_player_route. repeat case_match; simpl; try done.
    apply queue_teams_nil. simpl.
    by destruct (cancel_phaseTimer_eng_db
                   (set_autoBidSettings [] (set_bidQueue [] w))) as (_ & -> & _).
  - unfold bid_route. repeat case_match; simpl; try done.
    apply queue_teams_processBidQueue.
    eapply queue_teams_same;
      [| |apply (queue_teams_push w
                   [mkBid (default 0 team_id) (default 0 amount_arg)
                      (js_or increment_arg
                         (default 0 amount_arg - current_bid (state w))) false]
                   HQ)]; try done.
    intros b ->%list_elem_of_singleton. simpl.
    match goal with H : get_team w _ = Some _ |- _ => by rewrite H end.
  - unfold auto_bid_route. queue_teams_route HQ.
  - unfold sold_route, reset_block. repeat case_match; simpl; try done;
      apply queue_teams_nil; simpl;
      by destruct (cancel_phaseTimer_eng_db
                     (set_currentPhase "idle" (set_bidQueue [] w)))
        as (_ & -> & _).
  - unfold unsold_route, reset_block. repeat case_match; simpl; try done;
      apply queue_teams_nil; simpl;
      by destruct (cancel_phaseTimer_eng_db
                     (set_currentPhase "idle" (set_bidQueue [] w)))
        as (_ & -> & _).
  - unfold end_route. queue_teams_route HQ.
  - unfold authority_route. queue_teams_route HQ.
  - unfold revoke_route. queue_teams_route HQ.
  - unfold manual_bid_route. queue_teams_route HQ.
  - unfold skip_to_bidding_route. repeat case_match; simpl; try done.
    apply queue_teams_startBiddingPhase.
    destruct (cancel_phaseTimer_eng_db w) as (Hdb & Hq & _).
    eapply queue_teams_same; [by rewrite Hdb|exact Hq|exact HQ].
  - unfold extend_timer_route. queue_teams_route HQ.
  - unfold pause_route. repeat case_match; simpl; try done.
    destruct (cancel_phaseTimer_eng_db w) as (Hdb & Hq & _).
    eapply queue_teams_same; [|exact Hq|exact HQ]. simpl. by rewrite Hdb.
  - unfold set_setup_duration_route. queue_teams_route HQ.
  - unfold resume_route. queue_teams_route HQ.
  - unfold draft_start_route. queue_teams_route HQ.
  - unfold draft_pick_route. queue_teams_route HQ.
  - unfold draft_set_timer_route. queue_teams_route HQ.
  - unfold draft_end_route. queue_teams_route HQ.
  - unfold fire_phaseTimer. repeat case_match; simpl; try done.
    apply queue_teams_startBiddingPhase.
    by eapply queue_teams_same; [| |exact HQ].
  - unfold fire_drainTimer. repeat case_match; simpl; try done.
    apply queue_teams_drain_iter; [apply queue_teams_drain_loop|].
    by eapply queue_teams_same; [| |exact HQ].
  - case_match; [|done].
    eapply queue_teams_mono; [exact HQ| |done].
    intros id. unfold get_team. simpl. rewrite <- !elem_of_dom.
    match goal with H : bool_decide _ = true |- _ =>
      apply bool_decide_eq_true_1 in H; apply H end.
Qed.

(** X5. In every world the server can reach, each entry waiting in the
    bid queue names a team that exists: every path that enqueues (the bid
    endpoint, the evaluator after a drained entry, the opening auto-bid)
    has looked the team up, and no route deletes a team. The drainer's
    'Invalid team' outcome is therefore never the reason an entry is
    dropped. *)
Theorem X5_queued_teams_exist (d : Db) (t0 : Z) (evs : list Event)
    (b : PendingBid) :
  b ∈ bidQueue (eng (run evs (boot d t0))) →
  ∃ team, get_team (run evs (boot d t0)) (teamId b) = Some team.
Proof.
  assert (HQ : queue_teams_exist (run evs (boot d t0))).
  { assert (H0 : queue_teams_exist (boot d t0)) by (by apply queue_teams_nil).
    revert H0. generalize (boot d t0).
    induction evs as [|e evs IH]; intros w HQ; [done|].
    simpl. apply IH. unfold step. apply queue_teams_handle.
    by eapply queue_teams_same; [| |exact HQ]. }
  intros Hb. by apply HQ.
Qed.

Lemma X5_queued_teams_exist_witness :
  let evs :=
    [mkEvent 0 (AStart Demo.admin None);
     mkEvent 0 (ANextPlayer Demo.admin (Some 7));
     mkEvent 1000 (ASkipToBidding Demo.admin);
     mkEvent 10 (ABid Demo.owner1 (Some 1) (Some 150000) None);
     mkEvent 10 (ABid Demo.owner2 (Some 2) (Some 160000) None)] in
  bidQueue (eng (run evs (boot Demo.demo_db 1000000)))
    = [mkBid 2 160000 10000 false]
  ∧ ∃ team, get_team (run evs (boot Demo.demo_db 1000000)) 2 = Some team.
Proof.
  intros evs. split; [reflexivity|].
  apply (X5_queued_teams_exist Demo.demo_db 1000000 evs
           (mkBid 2 160000 10000 false)).
  vm_compute. constructor.
Defined.

(** ** Budgets *)












Definition is_external (a : Action) : bool :=
  match a with XTables _ _ _ _ => true | _ => false end.





(** ** The opening auto-bid goes to the first highest ceiling *)

Lemma length_insert_by {A} (precedes : A → A → bool) (x : A) (l : list A) :
  length (insert_by precedes x l) = S (length l).
Proof.
  induction l as [|y l IH]; simpl; [done|].
  destruct (precedes y x); simpl; by rewrite ?IH.
Qed.

Lemma length_stable_sort {A} (precedes : A → A → bool) (l : list A) :
  length (stable_sort precedes l) = length l.
Proof.
  induction l as [|x l IH]; simpl; [done|].
  by rewrite length_insert_by, IH.
Qed.

(** The head of a list sorted by descending key with [stable_sort] is the
    first element of the input that has the greatest key. *)
Lemma stable_sort_head {A} (key : A → Z) (l : list A) (x : A) (r : list A) :
  stable_sort (λ a b, key a >? key b) l = x :: r →
  ∃ l1 l2,
    l = l1 ++ x :: l2
    ∧ (∀ y, y ∈ l1 → key y < key x)
    ∧ (∀ y, y ∈ l2 → key y ≤ key x).
Proof.
  revert x r. induction l as [|a l IH]; intros x r; simpl; [done|].
  destruct (stable_sort (λ a b, key a >? key b) l) as [|h s] eqn:Hs; simpl.
  - intros [= <- <-].
    assert (l = []) as ->.
    { apply nil_length_inv.
      by rewrite <- (length_stable_sort (λ a b, key a >? key b) l), Hs. }
    exists [], []. split; [done|]. split; intros y Hy; by apply elem_of_nil in Hy.
  - destruct (IH h s eq_refl) as (l1 & l2 & -> & Hl1 & Hl2).
    destruct (Z.gtb_spec (key h) (key a)) as [Hgt|Hle].
    + intros [= <- <-]. exists (a :: l1), l2. split; [done|]. split; [|done].
      intros y [->|Hy]%elem_of_cons; [lia|by apply Hl1].
    + intros [= <- <-]. exists [], (l1 ++ h :: l2). split; [done|].
      split; [intros y Hy; by apply elem_of_nil in Hy|].
      intros y [Hy|[->|Hy]%elem_of_cons]%elem_of_app.
      * specialize (Hl1 y Hy). lia.
      * lia.
      * specialize (Hl2 y Hy). lia.
Qed.

(** X7. At the start of the bidding phase, the instructions that are
    enabled and whose ceiling is at least the current bid are considered
    in the order of the instruction map. If there is none, nothing
    happens. Otherwise exactly one is chosen: the first one with the
    highest ceiling (every earlier one has a strictly lower ceiling, no
    later one a higher one). Only this instruction is tried: when its
    team exists and can pay the current bid, one entry for that team at
    exactly the current bid, with increment 0 and marked as auto-bid, is
    put at the tail of the queue and the drainer is started; when the
    team cannot pay, no opening bid is queued at all, even if another
    eligible team could pay. *)
Theorem X7_opening_bid_first_highest_ceiling (st : AuctionState) (w : World) :
  let eligible :=
    filter (λ e : Z * AutoBid, active e.2 = true ∧ current_bid st ≤ maxBid e.2)
      (autoBidSettings (eng w)) in
  (eligible = [] → triggerInitialAutoBids st w = w)
  ∧ (eligible ≠ [] →
     ∃ team_id settings before after,
       eligible = before ++ (team_id, settings) :: after
       ∧ (∀ e, e ∈ before → maxBid e.2 < maxBid settings)
       ∧ (∀ e, e ∈ after → maxBid e.2 ≤ maxBid settings)
       ∧ active settings = true
       ∧ current_bid st ≤ maxBid settings
       ∧ triggerInitialAutoBids st w =
           match get_team w team_id with
           | Some team =>
             if current_bid st <=? budget_remaining team then
               processBidQueue
                 (set_bidQueue
                    (bidQueue (eng w) ++ [mkBid team_id (current_bid st) 0 true])
                    w)
             else w
           | None => w
           end).
Proof.
  intros eligible. split.
  - intros Hnil. unfold triggerInitialAutoBids. fold eligible. by rewrite Hnil.
  - intros Hne. unfold triggerInitialAutoBids. fold eligible.
    destruct (stable_sort _ eligible) as [|[team_id settings] r] eqn:Hsort.
    { destruct Hne. apply nil_length_inv.
      by rewrite <- (length_stable_sort (λ a b, maxBid a.2 >? maxBid b.2)), Hsort. }
    destruct (stable_sort_head (λ e : Z * AutoBid, maxBid e.2) eligible _ _ Hsort)
      as (before & after & Heq & Hbefore & Hafter).
    exists team_id, settings, before, after.
    assert (Hin : (team_id, settings) ∈ eligible).
    { rewrite Heq. apply elem_of_app. right. by left. }
    apply list_elem_of_filter in Hin as [[Hact Hceil] _].
    by split_and!.
Qed.

Lemma X7_opening_bid_first_highest_ceiling_witness :
  let w0 :=
    run [mkEvent 0 (AStart Demo.admin None);
         mkEvent 0 (ANextPlayer Demo.admin (Some 7))] Demo.demo_world in
  let w :=
    set_autoBidSettings
      [(1, mkAutoBid 300000 10000 true); (2, mkAutoBid 500000 10000 true)] w0 in
  triggerInitialAutoBids (state w0) w0 = w0
  ∧ ∃ team_id settings,
      (team_id, settings) ∈ autoBidSettings (eng w)
      ∧ current_bid (state w) ≤ maxBid settings.
Proof.
  intros w0 w. split.
  - by apply (X7_opening_bid_first_highest_ceiling (state w0) w0).
  - destruct (X7_opening_bid_first_highest_ceiling (state w) w) as [_ Hsome].
    destruct Hsome as (team_id & settings & before & after & Heq & _ & _ & _ & Hc & _);
      [vm_compute; discriminate|].
    exists team_id, settings. split; [|exact Hc].
    assert (Hin : (team_id, settings) ∈
      filter (λ e : Z * AutoBid,
                active e.2 = true ∧ current_bid (state w) ≤ maxBid e.2)
        (autoBidSettings (eng w))).
    { rewrite Heq. apply elem_of_app. right. by left. }
    by apply list_elem_of_filter in Hin as [_ Hin].
Defined.

(** ** Round and pick of the draft stay in step *)

(** The round is the one the pick number falls in. *)
Definition draft_consistent (st : AuctionState) : Prop :=
  1 ≤ draft_pick st
  ∧ draft_round st
    = (draft_pick st - 1) / Z.of_nat (length (draftOrder_of st)) + 1.

Definition draft_same (w w' : World) : Prop :=
  draft_round (state w') = draft_round (state w)
  ∧ draft_pick (state w') = draft_pick (state w)
  ∧ draft_order (state w') = draft_order (state w).

Lemma draft_same_refl (w : World) : draft_same w w.
Proof. done. Qed.

Lemma draft_same_trans (w1 w2 w3 : World) :
  draft_same w1 w2 → draft_same w2 w3 → draft_same w1 w3.
Proof. intros (?&?&?) (?&?&?). unfold draft_same. split_and!; congruence. Qed.

Lemma draft_same_executeBid (bid : PendingBid) (w : World) :
  draft_same w (snd (executeBid bid w)).
Proof. unfold executeBid. repeat case_match; done. Qed.

Lemma draft_same_processBidQueue (w : World) :
  draft_same w (processBidQueue w).
Proof.
  apply frame_processBidQueue;
    eauto using draft_same_refl, draft_same_trans, draft_same_executeBid; done.
Qed.

Lemma draft_same_drain_resume (w : World) : draft_same w (drain_resume w).
Proof.
  apply frame_drain_resume;
    eauto using draft_same_refl, draft_same_trans, draft_same_executeBid; done.
Qed.

Lemma draft_same_startBiddingPhase (w : World) :
  draft_same w (startBiddingPhase w).
Proof.
  apply frame_startBiddingPhase;
    eauto using draft_same_refl, draft_same_trans, draft_same_executeBid; done.
Qed.

Lemma draft_same_cancel (w : World) : draft_same w (cancel_phaseTimer w).
Proof.
  destruct (cancel_phaseTimer_eng_db w) as (Hdb & _).
  unfold draft_same, state. by rewrite Hdb.
Qed.

Lemma draft_consistent_same (w w' : World) :
  draft_same w w' → draft_consistent (state w) → draft_consistent (state w').
Proof.
  intros (Hr & Hp & Ho). unfold draft_consistent, draftOrder_of.
  by rewrite Hr, Hp, Ho.
Qed.

Lemma div_succ_pick (N p : Z) :
  0 < N → 1 ≤ p →
  p / N = (p - 1) / N + (if p mod N =? 0 then 1 else 0).
Proof.
  intros HN Hp.
  pose proof (Z.div_mod p N ltac:(lia)) as Hdm.
  pose proof (Z.mod_pos_bound p N HN) as Hb.
  destruct (Z.eqb_spec (p mod N) 0) as [H0|H0].
  - symmetry. apply Z.add_move_r. symmetry.
    apply (Z.div_unique (p - 1) N (p / N - 1) (N - 1)); lia.
  - rewrite Z.add_0_r.
    apply (Z.div_unique (p - 1) N (p / N) (p mod N - 1)); lia.
Qed.

Lemma currentTeamId_Some_nonempty (order : list Z) (round pick t : Z) :
  currentTeamId order round pick = Some t → 0 < Z.of_nat (length order).
Proof. destruct order; [done|]. simpl. lia. Qed.

Ltac draft_same_route :=
  repeat case_match; simpl;
  first
    [ done
    | eapply draft_same_trans; [|apply draft_same_processBidQueue]; done ].

Lemma draft_consistent_handle (a : Action) (w : World) :
  draft_consistent (state w) → draft_consistent (state (snd (handle a w))).
Proof.
  intros Hc. destruct a; simpl.
  - eapply draft_consistent_same; [|done]. unfold start_route. draft_same_route.
  - eapply draft_consistent_same; [|done]. unfold next_player_route.
    repeat case_match; simpl; try done.
    eapply draft_same_trans;
      [apply (draft_same_cancel (set_autoBidSettings [] (set_bidQueue [] w)))|].
    done.
  - eapply draft_consistent_same; [|done]. unfold bid_route. draft_same_route.
  - eapply draft_consistent_same; [|done]. unfold auto_bid_route.
    draft_same_route.
  - eapply draft_consistent_same; [|done]. unfold sold_route, reset_block.
    repeat case_match; simpl; try done;
      (eapply draft_same_trans;
        [apply (draft_same_cancel (set_currentPhase "idle" (set_bidQueue [] w)))|]);
      done.
  - eapply draft_consistent_same; [|done]. unfold unsold_route, reset_block.
    repeat case_match; simpl; try done;
      (eapply draft_same_trans;
        [apply (draft_same_cancel (set_currentPhase "idle" (set_bidQueue [] w)))|]);
      done.
  - eapply draft_consistent_same; [|done]. unfold end_route. draft_same_route.
  - eapply draft_consistent_same; [|done]. unfold authority_route.
    draft_same_route.
  - eapply draft_consistent_same; [|done]. unfold revoke_route. draft_same_route.
  - eapply draft_consistent_same; [|done]. unfold manual_bid_route.
    draft_same_route.
  - eapply draft_consistent_same; [|done]. unfold skip_to_bidding_route.
    repeat case_match; simpl; try done.
    eapply draft_same_trans; [apply draft_same_cancel|].
    apply draft_same_startBiddingPhase.
  - eapply draft_consistent_same; [|done]. unfold extend_timer_route.
    draft_same_route.
  - eapply draft_consistent_same; [|done]. unfold pause_route.
    repeat case_match; simpl; try done.
    eapply draft_same_trans; [apply draft_same_cancel|]. done.
  - eapply draft_consistent_same; [|done]. unfold set_setup_duration_route.
    draft_same_route.
  - eapply draft_consistent_same; [|done]. unfold resume_route. draft_same_route.
  - unfold draft_start_route. repeat case_match; simpl; try done;
      unfold draft_consistent; simpl; split; try lia;
      by rewrite Z.sub_diag, Zdiv_0_l.
  - unfold draft_pick_route. repeat case_match; simpl; try done.
    destruct Hc as [Hp Hr]. unfold draft_consistent, draftOrder_of. simpl.
    set (N := Z.of_nat (length (default [] (draft_order (state w))))) in *.
    assert (HN : 0 < N).
    { match goal with H : currentTeamId _ _ _ = Some _ |- _ =>
        apply currentTeamId_Some_nonempty in H end.
      done. }
    split; [unfold nextPick; lia|].
    rewrite nextRound_spec by (fold N; lia). fold N.
    unfold nextPick. replace (draft_pick (state w) + 1 - 1) with (draft_pick (state w)) by lia.
    unfold draftOrder_of in Hr. fold N in Hr.
    change (Z.of_nat (length (default [] (draft_order (auction_state (db w))))))
      with N.
    rewrite (div_succ_pick N (draft_pick (state w))) by lia.
    destruct (_ =? _); lia.
  - eapply draft_consistent_same; [|done]. unfold draft_set_timer_route.
    draft_same_route.
  - unfold draft_end_route. repeat case_match; simpl; try done;
      unfold draft_consistent; simpl; split; try lia;
      by rewrite Z.sub_diag, Zdiv_0_l.
  - eapply draft_consistent_same; [|done]. unfold fire_phaseTimer.
    repeat case_match; simpl; try done.
    eapply draft_same_trans; [|apply draft_same_startBiddingPhase]. done.
  - eapply draft_consistent_same; [|done]. unfold fire_drainTimer.
    repeat case_match; simpl; try done.
    eapply draft_same_trans; [|apply draft_same_drain_resume]. done.
  - case_match; done.
Qed.

(** X8. The draft keeps round and pick in step. Starting a draft sets
    pick 1 of round 1, and from then on, through any sequence of picks,
    other requests and timer turns, the round stored in the state is the
    round the stored pick number falls in: round = (pick - 1) div N + 1
    for a draft order of N teams, with pick >= 1. So a round changes
    exactly after each N-th pick, and the parity test of the snake order
    is applied to the right round. *)
Theorem X8_round_follows_pick (evs : list Event) (w : World) (u : AuthUser)
    (season_arg : option Z) (team_order : option (list Z)) :
  isAdmin u = true →
  let w0 := snd (draft_start_route u season_arg team_order w) in
  let w' := run evs w0 in
  draft_pick (state w0) = 1 ∧ draft_round (state w0) = 1
  ∧ 1 ≤ draft_pick (state w')
  ∧ draft_round (state w')
    = (draft_pick (state w') - 1)
        / Z.of_nat (length (draftOrder_of (state w'))) + 1.
Proof.
  intros Hadmin w0 w'.
  assert (H0 : draft_pick (state w0) = 1 ∧ draft_round (state w0) = 1).
  { subst w0. unfold draft_start_route. rewrite Hadmin. done. }
  destruct H0 as [Hp0 Hr0]. split; [done|]. split; [done|].
  assert (Hc0 : draft_consistent (state w0)).
  { unfold draft_consistent. rewrite Hp0, Hr0. split; [lia|done]. }
  subst w'. revert Hc0. generalize w0. clear.
  induction evs as [|e evs IH]; intros w Hc; [exact Hc|].
  simpl. apply IH. unfold step. apply draft_consistent_handle.
  by eapply draft_consistent_same; [|exact Hc].
Qed.

Lemma X8_round_follows_pick_witness :
  let w0 := snd (draft_start_route Demo.admin None (Some [1; 2]) Demo.demo_world) in
  let w' :=
    run [mkEvent 10 (ADraftPick Demo.owner1 (Some 7));
         mkEvent 10 (ADraftPick Demo.owner2 (Some 8))] w0 in
  draft_pick (state w') = 3 ∧ draft_round (state w') = 2.
Proof.
  intros w0 w'.
  destruct (X8_round_follows_pick
              [mkEvent 10 (ADraftPick Demo.owner1 (Some 7));
               mkEvent 10 (ADraftPick Demo.owner2 (Some 8))]
              Demo.demo_world Demo.admin None (Some [1; 2]) eq_refl)
    as (_ & _ & _ & Hround).
  split; [reflexivity|]. fold w0 in Hround. fold w' in Hround.
  rewrite Hround. reflexivity.
Defined.

(** ** The snake order, round by round *)

Lemma mod_round_offset (N r j : Z) :
  0 < N → 0 ≤ j < N → ((r - 1) * N + j) mod N = j.
Proof.
  intros HN Hj. rewrite Z.add_comm, Z.mod_add by lia. by apply Z.mod_small.
Qed.

(** X9. Within round r of a draft of N teams, the j-th pick of the round
    (pick number (r - 1) N + j + 1, for j = 0 .. N - 1) puts position j of
    the draft order on the clock in odd rounds and position N - 1 - j in
    even rounds: in one round every position is on the clock exactly once,
    forwards in odd rounds and backwards in even ones. The team that
    picks last in a round also picks first in the next round. *)
Theorem X9_snake_round (N r j : Z) :
  0 < N → 1 ≤ r → 0 ≤ j < N →
  teamIndex N r ((r - 1) * N + j + 1)
    = Some (if Z.odd r then j else N - 1 - j)
  ∧ (∀ j', 0 ≤ j' < N →
       teamIndex N r ((r - 1) * N + j' + 1) = teamIndex N r ((r - 1) * N + j + 1) →
       j' = j)
  ∧ teamIndex N r (r * N) = teamIndex N (r + 1) (r * N + 1).
Proof.
  intros HN Hr Hj.
  assert (Hidx : ∀ i, 0 ≤ i < N →
    teamIndex N r ((r - 1) * N + i + 1) = Some (if Z.odd r then i else N - 1 - i)).
  { intros i Hi. rewrite teamIndex_spec by nia.
    replace ((r - 1) * N + i + 1 - 1) with ((r - 1) * N + i) by lia.
    by rewrite mod_round_offset. }
  split; [by apply Hidx|]. split.
  - intros j' Hj'. rewrite !Hidx by done. destruct (Z.odd r); intros [=]; lia.
  - replace (r * N) with ((r - 1) * N + (N - 1) + 1) at 1 by lia.
    rewrite Hidx by lia.
    rewrite teamIndex_spec by nia.
    replace (r * N + 1 - 1) with ((r + 1 - 1) * N + 0) by lia.
    rewrite mod_round_offset by lia.
    replace (r + 1) with (Z.succ r) by lia. rewrite Z.odd_succ.
    rewrite <- Z.negb_odd. destruct (Z.odd r); simpl; f_equal; lia.
Qed.

Lemma X9_snake_round_witness :
  teamIndex 6 2 7 = Some 5 ∧ teamIndex 6 1 6 = teamIndex 6 2 7.
Proof.
  destruct (X9_snake_round 6 2 0) as (Hfirst & _ & _); [lia|lia|lia|].
  destruct (X9_snake_round 6 1 0) as (_ & _ & Hturn); [lia|lia|lia|].
  split; [exact Hfirst|exact Hturn].
Defined.

(** ** The auto-bid instructions *)

(** GET /auction/auto-bid/:team_id (auction.js, lines 495-504):
    [autoBidSettings[team_id] || null]. *)
Definition get_auto_bid_route (team_id : Z) (w : World) : option AutoBid :=
  ab_lookup team_id (autoBidSettings (eng w)).

Lemma ab_lookup_insert_eq (k : Z) (v : AutoBid) (l : list (Z * AutoBid)) :
  ab_lookup k (ab_insert k v l) = Some v.
Proof.
  unfold ab_lookup. induction l as [|[k' v'] l IH]; simpl.
  - by rewrite Z.eqb_refl.
  - destruct (Z.eqb_spec k k') as [->|Hne]; simpl.
    + by rewrite Z.eqb_refl.
    + destruct (k <? k'); simpl.
      * by rewrite Z.eqb_refl.
      * destruct (Z.eqb_spec k' k); [congruence|]. exact IH.
Qed.

Lemma ab_lookup_insert_ne (k k0 : Z) (v : AutoBid) (l : list (Z * AutoBid)) :
  k0 ≠ k → ab_lookup k0 (ab_insert k v l) = ab_lookup k0 l.
Proof.
  intros Hne. unfold ab_lookup. induction l as [|[k' v'] l IH]; simpl.
  - destruct (Z.eqb_spec k k0); [congruence|done].
  - destruct (Z.eqb_spec k k') as [->|Hkk']; simpl.
    + destruct (Z.eqb_spec k' k0); [congruence|done].
    + destruct (k <? k'); simpl.
      * destruct (Z.eqb_spec k k0); [congruence|done].
      * destruct (Z.eqb_spec k' k0); [done|exact IH].
Qed.

Lemma ab_lookup_delete_eq (k : Z) (l : list (Z * AutoBid)) :
  ab_lookup k (ab_delete k l) = None.
Proof.
  unfold ab_lookup, ab_delete. induction l as [|[k' v'] l IH]; simpl; [done|].
  rewrite filter_cons. simpl. case_decide as Hk; [|exact IH].
  simpl. destruct (Z.eqb_spec k' k); [done|exact IH].
Qed.

Lemma ab_lookup_delete_ne (k k0 : Z) (l : list (Z * AutoBid)) :
  k0 ≠ k → ab_lookup k0 (ab_delete k l) = ab_lookup k0 l.
Proof.
  intros Hne. unfold ab_lookup, ab_delete.
  induction l as [|[k' v'] l IH]; simpl; [done|].
  rewrite filter_cons. simpl. case_decide as Hk; simpl.
  - destruct (Z.eqb_spec k' k0); [done|exact IH].
  - subst k'. destruct (Z.eqb_spec k k0); [congruence|exact IH].
Qed.

(** X10. For an existing team and a user with bidding authority: setting
    an instruction (non-zero ceiling and increment, ceiling within the
    team's remaining budget) stores it as enabled, and reading the
    team's instruction back returns exactly that ceiling and increment;
    a ceiling above the remaining budget is refused with a 400 error and
    nothing changes; a request with active = false removes the team's
    instruction. In each case the instructions of all other teams, the
    bid queue and the database are untouched. Without bidding authority
    the request is refused with 403. *)
Theorem X10_auto_bid_store (w : World) (u : AuthUser) (tid m i : Z) (team : Team) :
  get_team w tid = Some team → tid ≠ 0 → m ≠ 0 → i ≠ 0 →
  let set := auto_bid_route u (Some tid) (Some m) (Some i) None w in
  let off := auto_bid_route u (Some tid) None None (Some false) w in
  (hasBiddingAuthority team (uid u) (role u) = false →
     set = (RespErr 403 "You do not have bidding authority for this team", w)
     ∧ off = (RespErr 403 "You do not have bidding authority for this team", w))
  ∧ (hasBiddingAuthority team (uid u) (role u) = true →
     (budget_remaining team < m →
        set = (RespErr 400 "Max bid exceeds budget", w))
     ∧ (m ≤ budget_remaining team →
        is_error (fst set) = false
        ∧ get_auto_bid_route tid (snd set) = Some (mkAutoBid m i true)
        ∧ (∀ t, t ≠ tid →
             get_auto_bid_route t (snd set) = get_auto_bid_route t w)
        ∧ bidQueue (eng (snd set)) = bidQueue (eng w)
        ∧ db (snd set) = db w)
     ∧ is_error (fst off) = false
     ∧ get_auto_bid_route tid (snd off) = None
     ∧ (∀ t, t ≠ tid → get_auto_bid_route t (snd off) = get_auto_bid_route t w)
     ∧ bidQueue (eng (snd off)) = bidQueue (eng w)
     ∧ db (snd off) = db w).
Proof.
  intros Hteam Htid Hm Hi set off.
  assert (Ht : truthy (Some tid) = true) by (simpl; by destruct (Z.eqb_spec tid 0)).
  assert (Htm : truthy (Some m) = true) by (simpl; by destruct (Z.eqb_spec m 0)).
  assert (Hti : truthy (Some i) = true) by (simpl; by destruct (Z.eqb_spec i 0)).
  subst set off. unfold auto_bid_route, get_auto_bid_route.
  rewrite Ht, Htm, Hti. simpl. rewrite Hteam.
  split.
  - intros ->. done.
  - intros ->. simpl. split_and!; try done.
    + intros Hlt. destruct (Z.ltb_spec (budget_remaining team) m); [done|lia].
    + intros Hle. destruct (Z.ltb_spec (budget_remaining team) m); [lia|].
      simpl. split_and!; try done.
      * apply ab_lookup_insert_eq.
      * intros t Hne. by apply ab_lookup_insert_ne.
    + apply ab_lookup_delete_eq.
    + intros t Hne. by apply ab_lookup_delete_ne.
Qed.

Lemma X10_auto_bid_store_witness :
  get_auto_bid_route 2
    (snd (auto_bid_route Demo.owner2 (Some 2) (Some 500000) (Some 10000) None
            Demo.bidding_world))
  = Some (mkAutoBid 500000 10000 true)
  ∧ is_error
      (fst (auto_bid_route Demo.owner1 (Some 2) (Some 500000) (Some 10000) None
              Demo.bidding_world)) = true.
Proof.
  pose (team := mkTeam "Birdies" (Some 20) (Some 21) 10000000 None).
  split.
  - destruct (X10_auto_bid_store Demo.bidding_world Demo.owner2 2 500000 10000 team)
      as (_ & Hyes); [reflexivity|lia|lia|lia|].
    destruct (Hyes eq_refl) as (_ & Hset & _).
    destruct Hset as (_ & Hget & _); [simpl; lia|]. exact Hget.
  - destruct (X10_auto_bid_store Demo.bidding_world Demo.owner1 2 500000 10000 team)
      as (Hno & _); [reflexivity|lia|lia|lia|].
    destruct (Hno eq_refl) as [-> _]. reflexivity.
Defined.

(** ** A player who was sold or drafted stays off the market *)

(** Whatever was not on offer before is not on offer after. *)
Definition off_kept (w w' : World) : Prop :=
  ∀ pid, available_player w pid = None → available_player w' pid = None.

Lemma off_kept_refl (w : World) : off_kept w w.
Proof. by intros pid. Qed.

Lemma off_kept_trans (w1 w2 w3 : World) :
  off_kept w1 w2 → off_kept w2 w3 → off_kept w1 w3.
Proof. intros H12 H23 pid H. by apply H23, H12. Qed.

Lemma off_kept_same (w w' : World) :
  players (db w') = players (db w) → users (db w') = users (db w) →
  off_kept w w'.
Proof. intros Hp Hu pid. unfold available_player. by rewrite Hp, Hu. Qed.

Lemma available_player_taken (w w' : World) (pid : Z) :
  players (db w') = alter make_unavailable pid (players (db w)) →
  available_player w' pid = None.
Proof.
  intros Hp. unfold available_player. rewrite Hp, lookup_alter.
  rewrite decide_True by done.
  destruct (players (db w) !! pid) as [p|]; simpl; [|done].
  destruct (player_user_id p) as [uid|]; simpl; [|done].
  by destruct (users (db w') !! uid).
Qed.

Lemma off_kept_taken (w w' : World) (k : Z) :
  players (db w') = alter make_unavailable k (players (db w)) →
  users (db w') = users (db w) →
  off_kept w w'.
Proof.
  intros Hp Hu pid. destruct (decide (k = pid)) as [->|Hne].
  - intros _. by eapply available_player_taken.
  - unfold available_player. rewrite Hp, Hu, lookup_alter.
    by rewrite decide_False.
Qed.

Lemma off_kept_executeBid (bid : PendingBid) (w : World) :
  off_kept w (snd (executeBid bid w)).
Proof. unfold executeBid. repeat case_match; by apply off_kept_same. Qed.

Lemma off_kept_processBidQueue (w : World) : off_kept w (processBidQueue w).
Proof.
  apply frame_processBidQueue;
    eauto using off_kept_refl, off_kept_trans, off_kept_executeBid;
    intros; by apply off_kept_same.
Qed.

Lemma off_kept_drain_resume (w : World) : off_kept w (drain_resume w).
Proof.
  apply frame_drain_resume;
    eauto using off_kept_refl, off_kept_trans, off_kept_executeBid;
    intros; by apply off_kept_same.
Qed.

Lemma off_kept_startBiddingPhase (w : World) :
  off_kept w (startBiddingPhase w).
Proof.
  apply frame_startBiddingPhase;
    eauto using off_kept_refl, off_kept_trans, off_kept_executeBid;
    intros; by apply off_kept_same.
Qed.

Lemma off_kept_cancel (w : World) : off_kept w (cancel_phaseTimer w).
Proof.
  destruct (cancel_phaseTimer_eng_db w) as (Hdb & _).
  apply off_kept_same; by rewrite Hdb.
Qed.

Lemma off_kept_reset_block (w : World) : off_kept w (reset_block w).
Proof.
  destruct (reset_block_spec w) as (_ & _ & _ & _ & _ & Hdb & _).
  apply off_kept_same; by rewrite Hdb.
Qed.

Ltac off_kept_route :=
  repeat case_match; simpl; try apply off_kept_refl;
  first
    [ by apply off_kept_same
    | by eapply off_kept_taken ].

Lemma off_kept_handle (a : Action) (w : World) :
  is_external a = false → off_kept w (snd (handle a w)).
Proof.
  intros Ha. destruct a; try discriminate Ha; simpl.
  - unfold start_route. off_kept_route.
  - unfold next_player_route. repeat case_match; simpl; try apply off_kept_refl.
    eapply off_kept_trans;
      [apply (off_kept_cancel (set_autoBidSettings [] (set_bidQueue [] w)))|].
    by apply off_kept_same.
  - unfold bid_route. repeat case_match; simpl; try apply off_kept_refl.
    eapply off_kept_trans; [|apply off_kept_processBidQueue].
    by apply off_kept_same.
  - unfold auto_bid_route. off_kept_route.
  - unfold sold_route.
    repeat case_match; simpl; try apply off_kept_refl;
      try apply off_kept_reset_block.
    eapply off_kept_trans; [apply off_kept_reset_block|].
    by eapply off_kept_taken.
  - unfold unsold_route.
    repeat case_match; simpl; try apply off_kept_refl;
      apply off_kept_reset_block.
  - unfold end_route. off_kept_route.
  - unfold authority_route. off_kept_route.
  - unfold revoke_route. off_kept_route.
  - unfold manual_bid_route. off_kept_route.
  - unfold skip_to_bidding_route.
    repeat case_match; simpl; try apply off_kept_refl.
    eapply off_kept_trans; [apply off_kept_cancel|].
    apply off_kept_startBiddingPhase.
  - unfold extend_timer_route. off_kept_route.
  - unfold pause_route. repeat case_match; simpl; try apply off_kept_refl.
    eapply off_kept_trans; [apply off_kept_cancel|]. by apply off_kept_same.
  - unfold set_setup_duration_route. off_kept_route.
  - unfold resume_route. off_kept_route.
  - unfold draft_start_route. off_kept_route.
  - unfold draft_pick_route. off_kept_route.
  - unfold draft_set_timer_route. off_kept_route.
  - unfold draft_end_route. off_kept_route.
  - unfold fire_phaseTimer. repeat case_match; simpl; try apply off_kept_refl.
    eapply off_kept_trans; [|apply off_kept_startBiddingPhase].
    by apply off_kept_same.
  - unfold fire_drainTimer. repeat case_match; simpl; try apply off_kept_refl.
    eapply off_kept_trans; [|apply off_kept_drain_resume].
    by apply off_kept_same.
Qed.

Lemma off_kept_run (evs : list Event) (w : World) :
  Forall (λ e, is_external (action e) = false) evs → off_kept w (run evs w).
Proof.
  revert w. induction evs as [|e evs IH]; intros w Hevs; [apply off_kept_refl|].
  apply Forall_cons in Hevs as [He Hevs]. simpl.
  eapply off_kept_trans; [|by apply IH]. unfold step.
  eapply off_kept_trans; [|by apply off_kept_handle]. by apply off_kept_same.
Qed.

(** The request takes player [pid] off the market: POST /auction/sold
    while [pid] is on the block, or POST /draft/pick of [pid]. *)
Definition takes (a : Action) (w : World) (pid : Z) : Prop :=
  match a with
  | ASold _ => current_player_id (state w) = Some pid
  | ADraftPick _ p => p = Some pid
  | _ => False
  end.

Lemma sold_takes (u : AuthUser) (w : World) (pid : Z) :
  current_player_id (state w) = Some pid →
  is_error (fst (sold_route u w)) = false →
  available_player (snd (sold_route u w)) pid = None.
Proof.
  intros Hcur. unfold sold_route.
  destruct (reset_block_spec w) as (_ & _ & _ & _ & _ & Hdb & _).
  unfold state. rewrite Hdb. fold (state w). rewrite Hcur.
  repeat case_match; simpl; try discriminate.
  intros _. by eapply available_player_taken.
Qed.

Lemma draft_pick_takes (u : AuthUser) (w : World) (pid : Z) :
  is_error (fst (draft_pick_route u (Some pid) w)) = false →
  available_player (snd (draft_pick_route u (Some pid) w)) pid = None.
Proof.
  unfold draft_pick_route.
  repeat case_match; simpl; try discriminate.
  intros _. by eapply available_player_taken.
Qed.

(** X11. Once POST /auction/sold has sold the player on the block, or
    POST /draft/pick has drafted a player, that player is off the market
    for good as far as the auction and the draft are concerned: after
    any further sequence of auction requests, draft requests and timer
    turns (the other routers not editing the tables), the player is
    still not available, so proposing the player again with
    POST /auction/next-player and picking the player again with
    POST /draft/pick are both refused, for every caller, and change
    nothing. *)
Theorem X11_taken_player_stays_taken (a : Action) (w : World) (pid : Z)
    (evs : list Event) :
  takes a w pid →
  is_error (fst (handle a w)) = false →
  Forall (λ e, is_external (action e) = false) evs →
  let w' := run evs (snd (handle a w)) in
  available_player w' pid = None
  ∧ (∀ u, ∃ r, next_player_route u (Some pid) w' = (r, w') ∧ is_error r = true)
  ∧ (∀ u, ∃ r, draft_pick_route u (Some pid) w' = (r, w') ∧ is_error r = true).
Proof.
  intros Htakes Hok Hevs w'.
  assert (Hoff : available_player w' pid = None).
  { apply off_kept_run; [done|].
    destruct a; simpl in Htakes; try done.
    - by apply sold_takes.
    - subst player_id. by apply draft_pick_takes. }
  split; [done|]. split; intros u.
  - unfold next_player_route.
    destruct (negb (isAdmin u)); [by eexists|].
    destruct (negb (truthy (Some pid))); [by eexists|].
    simpl. rewrite Hoff. by eexists.
  - unfold draft_pick_route.
    destruct (negb (truthy (Some pid))); [by eexists|].
    destruct (negb (is_draft _)); [by eexists|].
    destruct (currentTeamId _ _ _); [|by eexists].
    destruct (get_team _ _); [|by eexists].
    destruct (_ && _); [by eexists|].
    simpl. rewrite Hoff. by eexists.
Qed.

Lemma X11_taken_player_stays_taken_witness :
  let w :=
    run [mkEvent 0 (AStart Demo.admin None);
         mkEvent 0 (ANextPlayer Demo.admin (Some 7));
         mkEvent 1000 (ASkipToBidding Demo.admin);
         mkEvent 10 (ABid Demo.owner1 (Some 1) (Some 150000) None)]
      Demo.demo_world in
  let evs :=
    [mkEvent 100 (AUnsold Demo.admin);
     mkEvent 100 (ADraftStart Demo.admin None None)] in
  available_player w 7 ≠ None
  ∧ available_player (run evs (snd (handle (ASold Demo.admin) w))) 7 = None.
Proof.
  intros w evs. split; [done|].
  apply (X11_taken_player_stays_taken (ASold Demo.admin) w 7 evs);
    [reflexivity|reflexivity|repeat constructor].
Defined.

(** ** The unsold path *)

(** X12. POST /auction/unsold by an admin, while a player is on the
    block, is the counterpart of a sale that touches no books: no team's
    row (so no budget), no player row, no roster row and no log row
    changes (bids made on the player stay in the auction log, none marked
    as winning by this call); only the block is cleared (no current
    player, current bid 0, no bidder, no deadline), the queue and the
    auto-bid instructions are emptied, and the phase is idle. A player
    who was available is still available, so the admin can put the same
    player on the block again, and the bidding then restarts from the
    player's base price with no bidder. *)
Theorem X12_unsold_keeps_the_books (w : World) (u : AuthUser) (pid : Z)
    (player : Player) :
  isAdmin u = true →
  current_player_id (state w) = Some pid → pid ≠ 0 →
  available_player w pid = Some player →
  let w' := snd (unsold_route u w) in
  fst (unsold_route u w) = RespOk "Player marked as unsold"
  ∧ teams (db w') = teams (db w)
  ∧ users (db w') = users (db w)
  ∧ players (db w') = players (db w)
  ∧ team_roster (db w') = team_roster (db w)
  ∧ auction_log (db w') = auction_log (db w)
  ∧ draft_log (db w') = draft_log (db w)
  ∧ state w' = clear_current (state w)
  ∧ bidQueue (eng w') = []
  ∧ autoBidSettings (eng w') = []
  ∧ currentPhase (eng w') = "idle"%string
  ∧ phaseTimer (eng w') = None
  ∧ ∃ w'',
      next_player_route u (Some pid) w'
        = (RespOk "Player set for auction - setup phase started", w'')
      ∧ current_player_id (state w'') = Some pid
      ∧ current_bid (state w'') = base_price player
      ∧ current_bidder_team_id (state w'') = None
      ∧ currentPhase (eng w'') = "setup"%string.
Proof.
  intros Hadmin Hcur Hpid Havail w'.
  destruct (reset_block_spec w) as (Hq & Hph & Hpt & _ & _ & Hdb & _ & _).
  assert (Htruthy : truthy (Some pid) = true).
  { simpl. by destruct (Z.eqb_spec pid 0). }
  assert (Hroute : unsold_route u w
    = (RespOk "Player marked as unsold",
       emit (EvUnsold pid)
         (set_autoBidSettings [] (set_state clear_current (reset_block w))))).
  { unfold unsold_route. rewrite Hadmin. simpl.
    unfold state. rewrite Hdb. fold (state w). rewrite Hcur, Htruthy. done. }
  subst w'. rewrite Hroute. cbn [fst snd].
  split_and!; try (simpl; by rewrite ?Hdb, ?Hq, ?Hph, ?Hpt).
  { unfold state. simpl. by rewrite Hdb. }
  set (w1 := emit _ _).
  assert (Havail1 : available_player w1 pid = Some player).
  { unfold available_player in *. subst w1. simpl. by rewrite Hdb. }
  unfold next_player_route. rewrite Hadmin, Htruthy. simpl. rewrite Havail1.
  eexists. split; [reflexivity|].
  set (w2 := set_autoBidSettings [] (set_bidQueue [] w1)).
  destruct (cancel_phaseTimer_eng_db w2) as (Hdb2 & _).
  simpl. done.
Qed.

Lemma X12_unsold_keeps_the_books_witness :
  let w :=
    run [mkEvent 0 (AStart Demo.admin None);
         mkEvent 0 (ANextPlayer Demo.admin (Some 7));
         mkEvent 1000 (ASkipToBidding Demo.admin);
         mkEvent 10 (ABid Demo.owner1 (Some 1) (Some 150000) None)]
      Demo.demo_world in
  current_bid (state w) = 150000
  ∧ length (auction_log (db w)) = 1%nat
  ∧ auction_log (db (snd (unsold_route Demo.admin w))) = auction_log (db w)
  ∧ teams (db (snd (unsold_route Demo.admin w))) = teams (db w).
Proof.
  intros w. split; [reflexivity|]. split; [reflexivity|].
  destruct (X12_unsold_keeps_the_books w Demo.admin 7
              (mkPlayer (Some 30) 100000 true))
    as (_ & Hteams & _ & _ & _ & Hlog & _);
    [reflexivity|reflexivity|lia|reflexivity|].
  by split.
Defined.

(** ** The configured length of the setup phase *)

Definition duration_same (w w' : World) : Prop :=
  setupPhaseDuration (eng w') = setupPhaseDuration (eng w).

Lemma duration_same_refl (w : World) : duration_same w w.
Proof. done. Qed.

Lemma duration_same_trans (w1 w2 w3 : World) :
  duration_same w1 w2 → duration_same w2 w3 → duration_same w1 w3.
Proof. unfold duration_same. congruence. Qed.

Lemma duration_same_executeBid (bid : PendingBid) (w : World) :
  duration_same w (snd (executeBid bid w)).
Proof. unfold executeBid. repeat case_match; done. Qed.

Lemma duration_same_processBidQueue (w : World) :
  duration_same w (processBidQueue w).
Proof.
  apply frame_processBidQueue;
    eauto using duration_same_refl, duration_same_trans,
      duration_same_executeBid; done.
Qed.

Lemma duration_same_drain_resume (w : World) :
  duration_same w (drain_resume w).
Proof.
  apply frame_drain_resume;
    eauto using duration_same_refl, duration_same_trans,
      duration_same_executeBid; done.
Qed.

Lemma duration_same_startBiddingPhase (w : World) :
  duration_same w (startBiddingPhase w).
Proof.
  apply frame_startBiddingPhase;
    eauto using duration_same_refl, duration_same_trans,
      duration_same_executeBid; done.
Qed.

Lemma duration_same_cancel (w : World) :
  duration_same w (cancel_phaseTimer w).
Proof. by destruct (cancel_phaseTimer_eng_db w) as (_&_&_&_&_&_&H&_). Qed.

Definition is_set_duration (a : Action) : bool :=
  match a with ASetSetupDuration _ _ => true | _ => false end.

Ltac duration_same_route :=
  repeat case_match; simpl;
  first
    [ done
    | eapply duration_same_trans; [|apply duration_same_processBidQueue]; done ].

Lemma duration_same_handle (a : Action) (w : World) :
  is_set_duration a = false → duration_same w (snd (handle a w)).
Proof.
  intros Ha. destruct a; try discriminate Ha; simpl.
  - unfold start_route. duration_same_route.
  - unfold next_player_route. repeat case_match; simpl; try done.
    apply (duration_same_cancel (set_autoBidSettings [] (set_bidQueue [] w))).
  - unfold bid_route. duration_same_route.
  - unfold auto_bid_route. duration_same_route.
  - unfold sold_route, reset_block. repeat case_match; simpl; try done;
      apply (duration_same_cancel (set_currentPhase "idle" (set_bidQueue [] w))).
  - unfold unsold_route, reset_block. repeat case_match; simpl; try done;
      apply (duration_same_cancel (set_currentPhase "idle" (set_bidQueue [] w))).
  - unfold end_route. duration_same_route.
  - unfold authority_route. duration_same_route.
  - unfold revoke_route. duration_same_route.
  - unfold manual_bid_route. duration_same_route.
  - unfold skip_to_bidding_route. repeat case_match; simpl; try done.
    eapply duration_same_trans; [apply duration_same_cancel|].
    apply duration_same_startBiddingPhase.
  - unfold extend_timer_route. duration_same_route.
  - unfold pause_route. repeat case_match; simpl; try done.
    apply duration_same_cancel.
  - unfold resume_route. duration_same_route.
  - unfold draft_start_route. duration_same_route.
  - unfold draft_pick_route. duration_same_route.
  - unfold draft_set_timer_route. duration_same_route.
  - unfold draft_end_route. duration_same_route.
  - unfold fire_phaseTimer. repeat case_match; simpl; try done.
    eapply duration_same_trans; [|apply duration_same_startBiddingPhase]. done.
  - unfold fire_drainTimer. repeat case_match; simpl; try done.
    eapply duration_same_trans; [|apply duration_same_drain_resume]. done.
  - case_match; done.
Qed.

Lemma duration_same_run (evs : list Event) (w : World) :
  Forall (λ e, is_set_duration (action e) = false) evs →
  duration_same w (run evs w).
Proof.
  revert w. induction evs as [|e evs IH]; intros w Hevs; [done|].
  apply Forall_cons in Hevs as [He Hevs]. simpl.
  eapply duration_same_trans; [|by apply IH]. unfold step.
  eapply duration_same_trans; [|by apply duration_same_handle]. done.
Qed.

(** The setup phase lasts a whole number of seconds between 5 and 120. *)
Definition duration_ok (w : World) : Prop :=
  ∃ s, 5 ≤ s ≤ 120 ∧ setupPhaseDuration (eng w) = s * 1000.

Lemma duration_ok_handle (a : Action) (w : World) :
  duration_ok w → duration_ok (snd (handle a w)).
Proof.
  intros Hok. destruct (is_set_duration a) eqn:Ha.
  - destruct a; try discriminate Ha. simpl. unfold set_setup_duration_route.
    destruct (negb (isAdmin u)); [done|].
    destruct (_ || _) eqn:Hrange; [done|].
    apply orb_false_elim in Hrange as [H5%Z.ltb_ge H120%Z.ltb_ge].
    by exists (default 30 seconds_arg).
  - unfold duration_ok. by rewrite (duration_same_handle a w Ha).
Qed.

Lemma duration_ok_run (evs : list Event) (w : World) :
  duration_ok w → duration_ok (run evs w).
Proof.
  revert w. induction evs as [|e evs IH]; intros w Hok; [done|].
  simpl. apply IH. unfold step. by apply duration_ok_handle.
Qed.

(** X13. The configured setup duration is always a whole number of
    seconds between 5 and 120: it is 30 seconds at start-up, and in every
    state the server can reach it is s * 1000 ms with 5 <= s <= 120. An
    admin's POST /auction/set-setup-duration with s outside that range is
    refused and changes nothing; with s inside the range it is accepted,
    and the duration then stays s * 1000 ms through any further requests
    and timer turns other than another set-setup-duration (no other
    route, and neither the bid queue nor a timer, writes it). *)
Theorem X13_setup_duration_bounds (d : Db) (t0 : Z) (evs evs' : list Event)
    (u : AuthUser) (s : Z) :
  isAdmin u = true →
  Forall (λ e, is_set_duration (action e) = false) evs' →
  let w := run evs (boot d t0) in
  let r := set_setup_duration_route u (Some s) w in
  (∃ s0, 5 ≤ s0 ≤ 120 ∧ setupPhaseDuration (eng w) = s0 * 1000)
  ∧ (5 ≤ s ≤ 120 →
     is_error (fst r) = false
     ∧ setupPhaseDuration (eng (run evs' (snd r))) = s * 1000)
  ∧ (s < 5 ∨ 120 < s → is_error (fst r) = true ∧ snd r = w).
Proof.
  intros Hadmin Hevs' w r. split_and!.
  - apply duration_ok_run. exists 30. split; [lia|done].
  - intros [H5 H120]. subst r. unfold set_setup_duration_route.
    rewrite Hadmin. simpl.
    destruct (Z.ltb_spec s 5); [lia|]. destruct (Z.ltb_spec 120 s); [lia|].
    simpl. split; [done|].
    by rewrite (duration_same_run evs' _ Hevs').
  - intros Hout. subst r. unfold set_setup_duration_route.
    rewrite Hadmin. simpl.
    destruct (Z.ltb_spec s 5); [done|]. destruct (Z.ltb_spec 120 s); [done|].
    lia.
Qed.

Lemma X13_setup_duration_bounds_witness :
  let evs' :=
    [mkEvent 0 (AStart Demo.admin None);
     mkEvent 0 (ANextPlayer Demo.admin (Some 7))] in
  let r := set_setup_duration_route Demo.admin (Some 45) Demo.demo_world in
  setupPhaseDuration (eng (run evs' (snd r))) = 45000
  ∧ timer_end (state (run evs' (snd r))) = Some 1045000.
Proof.
  intros evs' r. split; [|reflexivity].
  destruct (X13_setup_duration_bounds Demo.demo_db 1000000 [] evs' Demo.admin 45)
    as (_ & Hset & _); [reflexivity|repeat constructor|].
  destruct Hset as [_ Hd]; [lia|]. exact Hd.
Defined.
